(** * AlphaGomoku: the Monte Carlo tree search of [utility/mcts.py]

    A shallow embedding of the classes [MCTS] and [MCTSPlayer].  The
    dictionaries of the search object are finite maps, the recursion of
    [search] is bounded by a fuel counter that stands for Python's
    recursion limit, and Python exceptions are an explicit outcome.

    Floating-point numbers are kept behind the interface [Arith]: the
    engine is written once and is instantiated with binary64 floats (to
    run it) and with the real numbers (to reason about exact sums, bounds
    and orders). *)

From Stdlib Require Import ZArith List Bool String Floats Reals Lra Lia.
From stdpp Require Import gmap list.

Local Open Scope Z_scope.

(** ** Numbers *)

(** The arithmetic the engine performs on Python floats and numpy
    float64 values.  [of_Z] is the implicit conversion of a Python int
    that meets a float; [gt_neg_inf x] is the comparison
    [x > float('-inf')]. *)
Class Arith (F : Type) := {
  of_Z : Z → F;
  fadd : F → F → F;
  fmul : F → F → F;
  fdiv : F → F → F;
  fopp : F → F;
  fsqrt : F → F;
  EPS : F;
  fgtb : F → F → bool;
  feqb : F → F → bool;
  gt_neg_inf : F → bool
}.

(** ** Boards *)

(** A board is the nested list behind the numpy array; a cell is 0
    (empty), 1 (the side to move) or 2 (the opponent). *)
Abbreviation board := (list (list Z)).

(** Modelled from the spec: the constants [BOARD_SIZE] and [BOARD_WIDTH]
    of utility/common.py, which is not part of the sources; the board has
    side length 15 and 225 cells. *)
Definition BOARD_WIDTH : Z := 15.
Definition BOARD_SIZE : Z := 225.

(** The body shared by [MCTS.convert_perspective] and
    [MCTSPlayer.convert_to_p1_perspective]:
    [n - 1 if n == 2 else n * 2]. *)
Definition convert_cell (n : Z) : Z := if n =? 2 then n - 1 else n * 2.

Definition convert_perspective (state : board) : board :=
  map (map convert_cell) state.

Definition convert_to_p1_perspective (state : board) : board :=
  map (map convert_cell) state.

(** Lines 141 and 142 of [MCTSPlayer.choose_action]: only the board of
    player 2 is converted. *)
Definition player_perspective (player_num : Z) (state : board) : board :=
  if player_num =? 2 then convert_to_p1_perspective state else state.

(** [np.count_nonzero]. *)
Definition count_nonzero (state : board) : Z :=
  Z.of_nat (length (filter (λ n, n ≠ 0) (concat state))).

(** The stones of one row. *)
Definition count_row (row : list Z) : Z :=
  Z.of_nat (length (filter (λ n, n ≠ 0) row)).

(** Python indexing [l[i]]: a negative index counts from the end, an
    index outside [-len, len) raises IndexError (here [None]). *)
Definition norm_index (len : nat) (i : Z) : option nat :=
  if 0 <=? i then (if i <? Z.of_nat len then Some (Z.to_nat i) else None)
  else (if - Z.of_nat len <=? i then Some (Z.to_nat (Z.of_nat len + i)) else None).

Definition getitem {A} (l : list A) (i : Z) : option A :=
  k ← norm_index (length l) i; l !! k.

Definition setitem {A} (l : list A) (i : Z) (x : A) : option (list A) :=
  k ← norm_index (length l) i; Some (<[k := x]> l).

(** [b[r][c] = v] on a two-dimensional array. *)
Definition setitem2 (b : board) (r c : Z) (v : Z) : option board :=
  k ← norm_index (length b) r;
  row ← b !! k;
  row' ← setitem row c v;
  Some (<[k := row']> b).

Definition getitem2 (b : board) (r c : Z) : option Z :=
  row ← getitem b r; getitem row c.

(** [range(n)]. *)
Definition range (n : Z) : list Z := seqZ 0 n.

(** Cell values of a board in player-1 form, and the 15 by 15 shape. *)
Definition cell_ok (n : Z) : Prop := n = 0 ∨ n = 1 ∨ n = 2.
Definition cells_ok (b : board) : Prop := Forall (Forall cell_ok) b.
Definition all_empty (b : board) : Prop := Forall (Forall (λ n, n = 0)) b.
Definition shape_ok (b : board) : Prop :=
  length b = 15%nat ∧ Forall (λ row, length row = 15%nat) b.

(** ** Outcomes and the state of the search object *)

Inductive pyerr :=
  | IndexError | KeyError | ZeroDivisionError | ValueError | RecursionError.

Inductive outcome (A : Type) :=
  | Done (a : A)
  | Raised (e : pyerr).
Arguments Done {A} a.
Arguments Raised {A} e.

Definition obind {A B} (o : outcome A) (k : A → outcome B) : outcome B :=
  match o with Done a => k a | Raised e => Raised e end.

(** The value of a finished computation, with a default. *)
Definition is_done {A} (o : outcome A) : bool :=
  match o with Done _ => true | Raised _ => false end.

Definition done_val {A} (d : A) (o : outcome A) : A :=
  match o with Done a => a | Raised _ => d end.

Definition orelse {A} (o : option A) (e : pyerr) : outcome A :=
  match o with Some a => Done a | None => Raised e end.

(** What the engine does to the outside world: a call of the evaluator's
    [predict], and a line printed. *)
Inductive event :=
  | EvPredict (state : board)
  | EvPrint (msg : string).

Section Engine.

Context {F : Type} `{Arith F}.

(** The attributes of an [MCTS] object; the key [np.array_str(state)] is
    the board itself (the string shows every cell of a 15 by 15 integer
    array). *)
Record store := mkStore {
  sa_q : gmap (board * Z) F;
  sa_n : gmap (board * Z) Z;
  s_n : gmap board Z;
  s_p : gmap board (list F);
  s_r : gmap board Z;
  s_valid_moves : gmap board (list Z);
  events : list event
}.

(** [MCTS.__init__]. *)
Definition MCTS_init : store := mkStore ∅ ∅ ∅ ∅ ∅ ∅ [].

Definition set_sa_q (f : gmap (board * Z) F → gmap (board * Z) F) (st : store) :=
  mkStore (f (sa_q st)) (sa_n st) (s_n st) (s_p st) (s_r st) (s_valid_moves st) (events st).
Definition set_sa_n (f : gmap (board * Z) Z → gmap (board * Z) Z) (st : store) :=
  mkStore (sa_q st) (f (sa_n st)) (s_n st) (s_p st) (s_r st) (s_valid_moves st) (events st).
Definition set_s_n (f : gmap board Z → gmap board Z) (st : store) :=
  mkStore (sa_q st) (sa_n st) (f (s_n st)) (s_p st) (s_r st) (s_valid_moves st) (events st).
Definition set_s_p (f : gmap board (list F) → gmap board (list F)) (st : store) :=
  mkStore (sa_q st) (sa_n st) (s_n st) (f (s_p st)) (s_r st) (s_valid_moves st) (events st).
Definition set_s_r (f : gmap board Z → gmap board Z) (st : store) :=
  mkStore (sa_q st) (sa_n st) (s_n st) (s_p st) (f (s_r st)) (s_valid_moves st) (events st).
Definition set_s_valid_moves (f : gmap board (list Z) → gmap board (list Z)) (st : store) :=
  mkStore (sa_q st) (sa_n st) (s_n st) (s_p st) (s_r st) (f (s_valid_moves st)) (events st).
Definition emit (e : event) (st : store) :=
  mkStore (sa_q st) (sa_n st) (s_n st) (s_p st) (s_r st) (s_valid_moves st) (events st ++ [e]).

(** ** The collaborators

    [policy_value_obj.predict], and the functions [get_reward],
    [get_valid_actions_1d] and [index_to_pos] of utility/common.py, which
    is not part of the sources: they are parameters of the engine. *)
Variable predict : board → list F * F.
Variable get_reward : board → Z → Z.
Variable get_valid_actions_1d : board → Z → list Z.
Variable index_to_pos : Z → Z * Z.

Definition c_puct : Z := 5.
Definition valid_actions_distance : Z := 1.

(** [math.sqrt]: a negative argument raises ValueError. *)
Definition math_sqrt (x : F) : outcome F :=
  if fgtb (of_Z 0) x then Raised ValueError else Done (fsqrt x).

(** [np.sum], read as the sum from left to right. *)
Definition np_sum (l : list F) : F := fold_left fadd l (of_Z 0).

(** *** Leaf expansion (lines 61 to 83) *)

Definition mask_of (valid_actions : list Z) : list Z :=
  (λ a, if bool_decide (a ∈ valid_actions) then 1 else 0) <$> range BOARD_SIZE.

Definition masked_probs (probs : list F) (mask : list Z) : option (list F) :=
  mapM (λ i, p ← getitem probs i; m ← getitem mask i; Some (fmul p (of_Z m)))
       (range BOARD_SIZE).

Definition uniform_probs (size : nat) : list F :=
  replicate size (fdiv (of_Z 1) (of_Z (Z.of_nat size))).

Definition expand (s_str : board) (st : store) : outcome (F * store) :=
  let '(probs, value) := predict s_str in
  let st := emit (EvPredict s_str) st in
  let valid_actions := get_valid_actions_1d s_str valid_actions_distance in
  let st := set_s_valid_moves (insert s_str valid_actions) st in
  let mask := mask_of valid_actions in
  obind (orelse (masked_probs probs mask) IndexError) (λ probs,
  let probs_sum := np_sum probs in
  let '(probs, st) :=
    if feqb probs_sum (of_Z 0) then
      (uniform_probs (length probs), emit (EvPrint "warning: all moves masked") st)
    else if negb (feqb probs_sum (of_Z 1)) then
      (map (λ p, fdiv p probs_sum) probs, st)
    else (probs, st) in
  let st := set_s_p (insert s_str probs) st in
  let st := set_s_n (insert s_str 0) st in
  Done (fopp value, st)).

(** *** Selection (lines 87 to 100) *)

Definition puct_score (st : store) (s_str : board) (a : Z) : outcome F :=
  match sa_q st !! (s_str, a) with
  | Some q =>
      obind (orelse (s_p st !! s_str) KeyError) (λ probs,
      obind (orelse (getitem probs a) IndexError) (λ p,
      obind (orelse (s_n st !! s_str) KeyError) (λ n,
      obind (math_sqrt (of_Z n)) (λ root,
      obind (orelse (sa_n st !! (s_str, a)) KeyError) (λ na,
      let u := fdiv (fmul (fmul (of_Z c_puct) p) root) (of_Z (1 + na)) in
      Done (fadd q u))))))
  | None =>
      obind (orelse (s_p st !! s_str) KeyError) (λ probs,
      obind (orelse (getitem probs a) IndexError) (λ p,
      obind (orelse (s_n st !! s_str) KeyError) (λ n,
      obind (math_sqrt (fadd (of_Z n) EPS)) (λ root,
      Done (fmul (fmul (of_Z c_puct) p) root)))))
  end.

(** [score > best_node_score]; [None] is the initial [float('-inf')]. *)
Definition beats (score : F) (best_node_score : option F) : bool :=
  match best_node_score with
  | None => gt_neg_inf score
  | Some b => fgtb score b
  end.

Fixpoint select_loop (st : store) (s_str : board) (actions : list Z)
    (best_node_score : option F) (best_action : Z) : outcome (option F * Z) :=
  match actions with
  | [] => Done (best_node_score, best_action)
  | a :: rest =>
      obind (puct_score st s_str a) (λ score,
      if beats score best_node_score
      then select_loop st s_str rest (Some score) a
      else select_loop st s_str rest best_node_score best_action)
  end.

Definition select (st : store) (s_str : board) : outcome Z :=
  obind (orelse (s_valid_moves st !! s_str) KeyError) (λ actions,
  obind (select_loop st s_str actions None (-1)) (λ r, Done (snd r))).

(** Lines 102 to 104: the board the opponent sees after the move. *)
Definition next_state (state : board) (best_action : Z) : outcome board :=
  let next_s := convert_perspective state in
  let best_action_2d := index_to_pos best_action in
  orelse (setitem2 next_s (fst best_action_2d) (snd best_action_2d) 2) IndexError.

(** *** Backup (lines 108 to 119) *)

Definition backup (s_str : board) (best_action : Z) (value : F) (st : store)
    : outcome (F * store) :=
  obind
    (match sa_q st !! (s_str, best_action) with
     | Some q =>
         obind (orelse (sa_n st !! (s_str, best_action)) KeyError) (λ n,
         let q' := fdiv (fadd (fmul (of_Z n) q) value) (of_Z (n + 1)) in
         Done (set_sa_n (insert (s_str, best_action) (n + 1))
                 (set_sa_q (insert (s_str, best_action) q') st)))
     | None =>
         Done (set_sa_n (insert (s_str, best_action) 1)
                 (set_sa_q (insert (s_str, best_action) value) st))
     end) (λ st,
  obind (orelse (s_n st !! s_str) KeyError) (λ n,
  Done (fopp value, set_s_n (insert s_str (n + 1)) st))).

(** *** [MCTS.search] *)

(** Lines 52 and 53. *)
Definition cache_reward (state : board) (st : store) : store :=
  match s_r st !! state with
  | Some _ => st
  | None => set_s_r (insert state (get_reward state 1)) st
  end.

(** The reward [self.s_r[s_str]] that line 56 reads. *)
Definition terminal_reward (st : store) (state : board) : Z :=
  match s_r st !! state with
  | Some r => r
  | None => get_reward state 1
  end.

Definition is_terminal (state : board) (r : Z) : bool :=
  negb (r =? 0) || (count_nonzero state =? BOARD_SIZE).

Fixpoint search (fuel : nat) (state_p1_np : board) (st : store)
    : outcome (F * store) :=
  match fuel with
  | O => Raised RecursionError
  | S fuel =>
      let s_str := state_p1_np in
      let st := cache_reward state_p1_np st in
      obind (orelse (s_r st !! s_str) KeyError) (λ r,
      if is_terminal state_p1_np r then Done (of_Z (- r), st)
      else
        match s_p st !! s_str with
        | None => expand s_str st
        | Some _ =>
            obind (select st s_str) (λ best_action,
            obind (next_state state_p1_np best_action) (λ next_s,
            obind (search fuel next_s st) (λ '(value, st),
            backup s_str best_action value st)))
        end)
  end.

(** *** [MCTS.get_probs] *)

Fixpoint playouts (fuel : nat) (playout_count : nat) (state : board) (st : store)
    : outcome store :=
  match playout_count with
  | O => Done st
  | S n =>
      obind (search fuel state st) (λ '(_, st), playouts fuel n state st)
  end.

(** Any sequence of calls of [search] on one search object. *)
Fixpoint search_seq (fuel : nat) (states : list board) (st : store)
    : outcome store :=
  match states with
  | [] => Done st
  | state :: rest =>
      obind (search fuel state st) (λ '(_, st), search_seq fuel rest st)
  end.

Definition counts (st : store) (state_str : board) : list Z :=
  (λ i, match sa_n st !! (state_str, i) with Some n => n | None => 0 end)
    <$> range BOARD_SIZE.

(** [sum] on a list of ints. *)
Definition py_sum (l : list Z) : Z := fold_left Z.add l 0.

Definition get_probs (fuel : nat) (playout_count : nat) (state : board) (st : store)
    : outcome (list F * store) :=
  obind (playouts fuel playout_count state st) (λ st,
  let cs := counts st state in
  let counts_sum := py_sum cs in
  match cs with
  | [] => Done ([], st)
  | _ :: _ =>
      if counts_sum =? 0 then Raised ZeroDivisionError
      else Done (map (λ i, fdiv (of_Z i) (of_Z counts_sum)) cs, st)
  end).

(** *** [MCTSPlayer.choose_action] *)

(** [max(probs)]: the first greatest element; ValueError on []. *)
Definition py_max (l : list F) : outcome F :=
  match l with
  | [] => Raised ValueError
  | x :: rest => Done (fold_left (λ m y, if fgtb y m then y else m) rest x)
  end.

(** [probs.index(m)]: the first position holding a value equal to [m]. *)
Fixpoint py_index (l : list F) (m : F) (i : Z) : outcome Z :=
  match l with
  | [] => Raised ValueError
  | x :: rest => if feqb x m then Done i else py_index rest m (i + 1)
  end.

Definition choose_action (fuel : nat) (player_num : Z) (playout_count : nat)
    (state : board) (st : store) : outcome ((Z * Z) * store) :=
  let state := player_perspective player_num state in
  if count_nonzero state =? 0 then Done ((7, 7), st)
  else
    obind (get_probs fuel playout_count state st) (λ '(probs, st),
    obind (py_max probs) (λ m,
    obind (py_index probs m 0) (λ i,
    Done (index_to_pos i, st)))).

End Engine.

Arguments store F : clear implicits.

(** ** Two instances of the arithmetic *)

(** Binary64 floating point, the arithmetic the program runs on. *)
Definition float_of_Z (z : Z) : float :=
  match z with
  | Z0 => PrimFloat.zero
  | Zpos _ => PrimFloat.of_uint63 (Uint63.of_Z z)
  | Zneg p => PrimFloat.opp (PrimFloat.of_uint63 (Uint63.of_Z (Zpos p)))
  end.

#[export] Instance float_arith : Arith float := {|
  of_Z := float_of_Z;
  fadd := PrimFloat.add;
  fmul := PrimFloat.mul;
  fdiv := PrimFloat.div;
  fopp := PrimFloat.opp;
  fsqrt := PrimFloat.sqrt;
  EPS := 0x1.5798ee2308c3ap-27%float;
  fgtb := λ x y, PrimFloat.ltb y x;
  feqb := PrimFloat.eqb;
  gt_neg_inf := λ x, PrimFloat.ltb PrimFloat.neg_infinity x
|}.

(** Exact arithmetic on the reals: no rounding, no NaN, no infinity.  A
    theorem over the reals about numbers that come from the evaluator
    states the evaluator's contract ([evaluator_ok]: probabilities, and a
    value in [-1, 1]) as a hypothesis; on binary64 that contract keeps
    every prior, mean value and score finite, so that a run on floats
    differs from the run on the reals by rounding only. *)
Definition Rgtb (x y : R) : bool := if Rgt_dec x y then true else false.
Definition Reqb (x y : R) : bool := if Req_dec_T x y then true else false.

#[export] Instance real_arith : Arith R := {|
  of_Z := IZR;
  fadd := Rplus;
  fmul := Rmult;
  fdiv := Rdiv;
  fopp := Ropp;
  fsqrt := sqrt;
  EPS := (1 / 100000000)%R;
  fgtb := Rgtb;
  feqb := Reqb;
  gt_neg_inf := λ _, true
|}.

(** The PUCT score in the words of the spec, in the operations of the
    arithmetic: Q + c_puct * P * sqrt(N(s)) / (1 + N(s, a)) on an existing
    edge, c_puct * P * sqrt(N(s) + 1e-8) otherwise, with c_puct = 5. *)
Definition puct_formula {F : Type} `{Arith F} (st : store F) (key : board) (a : Z) : F :=
  let P := default (of_Z 0) (prior ← s_p st !! key; getitem prior a) in
  let N := of_Z (default 0 (s_n st !! key)) in
  match sa_q st !! (key, a) with
  | Some Q =>
      fadd Q (fdiv (fmul (fmul (of_Z 5) P) (fsqrt N))
                   (of_Z (1 + default 0 (sa_n st !! (key, a)))))
  | None => fmul (fmul (of_Z 5) P) (fsqrt (fadd N EPS))
  end.

(** In the words of the spec: [a] is the action of strictly greatest
    score, the first one in the order of [actions] on ties.  Its score is
    greater than the score of every action before it, and no action after
    it has a greater score. *)
Definition first_greatest {F : Type} `{Arith F} (score : Z → F)
    (actions : list Z) (a : Z) : Prop :=
  ∃ before after,
    actions = before ++ a :: after
    ∧ Forall (λ a', fgtb (score a) (score a') = true) before
    ∧ Forall (λ a', fgtb (score a') (score a) = false) after.

(** Scores that [>] orders: each is greater than -inf (so none is NaN),
    and on them [>] is asymmetric and [x > z], not [y > z] give [x > y].
    Every list of reals is comparable; a list of binary64 numbers is
    comparable when it holds neither NaN nor -inf. *)
Definition comparable {F : Type} `{Arith F} (scores : list F) : Prop :=
  (∀ x, x ∈ scores → gt_neg_inf x = true)
  ∧ (∀ x y, x ∈ scores → y ∈ scores → fgtb x y = true → fgtb y x = false)
  ∧ (∀ x y z, x ∈ scores → y ∈ scores → z ∈ scores →
       fgtb x z = true → fgtb y z = false → fgtb x y = true).

(** [comparable] as a test. *)
Definition comparableb {F : Type} `{Arith F} (scores : list F) : bool :=
  forallb gt_neg_inf scores
  && forallb (λ x, forallb (λ y, implb (fgtb x y) (negb (fgtb y x))) scores) scores
  && forallb (λ x, forallb (λ y, forallb (λ z,
       implb (fgtb x z && negb (fgtb y z)) (fgtb x y)) scores) scores) scores.

(** The contract of the evaluator, in the words of the spec: at least 225
    priors, each a probability, and a value in [-1, 1].  On binary64 these
    bounds leave no room for NaN, an infinity or an overflowing sum. *)
Definition evaluator_ok (predict : board → list R * R) : Prop :=
  ∀ b, (225 ≤ length (fst (predict b)))%nat
       ∧ Forall (λ p, (0 <= p <= 1)%R) (fst (predict b))
       ∧ (-1 <= snd (predict b) <= 1)%R.

(** Every stored prior is a probability. *)
Definition priors_bounded (st : store R) : Prop :=
  ∀ b prior, s_p st !! b = Some prior → Forall (λ p, (0 <= p <= 1)%R) prior.

(** The contract of the Legal-Move Oracle: on a board of the right shape
    that holds a stone and an empty cell, it returns at least one action,
    each an index in [0, 225) of an empty cell. *)
Definition oracle_ok (get_valid_actions_1d : board → Z → list Z)
    (index_to_pos : Z → Z * Z) : Prop :=
  ∀ b, shape_ok b → 0 < count_nonzero b < BOARD_SIZE →
    get_valid_actions_1d b 1 ≠ []
    ∧ ∀ a, a ∈ get_valid_actions_1d b 1 →
        0 ≤ a < BOARD_SIZE
        ∧ getitem2 b (fst (index_to_pos a)) (snd (index_to_pos a)) = Some 0.

(** What every call of [search] keeps true of the tables: an expanded
    state has 225 priors, the oracle's actions and a visit count; the two
    edge tables have the same keys; the cached rewards are the rewards. *)
Definition tree_inv (get_reward : board → Z → Z)
    (get_valid_actions_1d : board → Z → list Z) (st : store R) : Prop :=
  (∀ b prior, s_p st !! b = Some prior →
     length prior = 225%nat
     ∧ s_valid_moves st !! b = Some (get_valid_actions_1d b 1)
     ∧ ∃ n, s_n st !! b = Some n ∧ 0 ≤ n)
  ∧ (∀ k, is_Some (sa_q st !! k) ↔ is_Some (sa_n st !! k))
  ∧ (∀ b r, s_r st !! b = Some r → r = get_reward b 1).

(** Every edge record holds a mean value in [-1, 1]. *)
Definition edges_bounded (st : store R) : Prop :=
  ∀ k q, sa_q st !! k = Some q → (-1 <= q <= 1)%R.

(** What the backups keep true: bounded means, visit counts that are not
    negative, cached rewards in {-1, 0, 1}. *)
Definition bounded_inv (st : store R) : Prop :=
  edges_bounded st
  ∧ (∀ k n, sa_n st !! k = Some n → 0 ≤ n)
  ∧ (∀ b r, s_r st !! b = Some r → -1 ≤ r ≤ 1).

(** The edges after a sequence of calls, when the sequence returned. *)
Definition edges_bounded_after (o : outcome (store R)) : Prop :=
  match o with
  | Done st => edges_bounded st
  | Raised _ => True
  end.

(** ** Stand-ins for the collaborators, used to run the engine *)

Module Standin.

(** Modelled from the spec: [index_to_pos] of utility/common.py, the
    row-major mapping of an action index to (row, col). *)
Definition index_to_pos (i : Z) : Z * Z := (i / BOARD_WIDTH, i mod BOARD_WIDTH).

(** The cell at (r, c), 0 outside the board. *)
Definition cell (b : board) (r c : Z) : Z :=
  if (0 <=? r) && (0 <=? c)
  then default 0 (row ← b !! Z.to_nat r; row !! Z.to_nat c)
  else 0.

(** Modelled from the spec: [get_valid_actions_1d] of utility/common.py,
    the empty cells within [distance] of a stone, in index order. *)
Definition near_stone (b : board) (distance : Z) (i : Z) : bool :=
  let '(r, c) := index_to_pos i in
  (cell b r c =? 0) &&
  existsb (λ dr, existsb (λ dc, negb (cell b (r + dr) (c + dc) =? 0))
                   (seqZ (- distance) (2 * distance + 1)))
          (seqZ (- distance) (2 * distance + 1)).

Definition get_valid_actions_1d (b : board) (distance : Z) : list Z :=
  filter (λ i, near_stone b distance i = true) (range BOARD_SIZE).

(** Modelled from the spec: the oracle without the proximity filter,
    every empty cell in index order ("the game's only illegality
    condition is cell occupied"). *)
Definition empty_cells (b : board) (distance : Z) : list Z :=
  filter (λ i, getitem2 b (fst (index_to_pos i)) (snd (index_to_pos i)) = Some 0)
         (range BOARD_SIZE).

(** Modelled from the spec: [get_reward] of utility/common.py, 1 when
    [player] has five in a row, -1 when the other player has, else 0. *)
Definition five_from (b : board) (p : Z) (i : Z) (d : Z * Z) : bool :=
  let '(r, c) := index_to_pos i in
  forallb (λ k, cell b (r + k * fst d) (c + k * snd d) =? p) (seqZ 0 5).

Definition has_five (b : board) (p : Z) : bool :=
  existsb (λ i, existsb (five_from b p i) [(0, 1); (1, 0); (1, 1); (1, -1)])
          (range BOARD_SIZE).

Definition get_reward (b : board) (player : Z) : Z :=
  if has_five b player then 1
  else if has_five b (3 - player) then -1
  else 0.

End Standin.

(** The evaluator of pure search, [RandomPolicyValueClass.predict]. *)
Definition random_predict {F} `{Arith F} (state : board) : list F * F :=
  (replicate 225 (fdiv (of_Z 1) (of_Z 225)), of_Z 0).

(** An evaluator whose priors are finite and not normalised: 2^1023 on
    every index. *)
Definition huge_predict (state : board) : list float * float :=
  (replicate 225 0x1p1023%float, 0%float).

(** An evaluator outside its contract: every prior is NaN. *)
Definition nan_predict (state : board) : list float * float :=
  (replicate 225 PrimFloat.nan, 0%float).

(** A position with two stones near the centre. *)
Definition empty_board : board := replicate 15 (replicate 15 0).
Definition two_stones : board :=
  <[7%nat := <[7%nat := 1]> (<[8%nat := 2]> (replicate 15 0))]> empty_board.

(** A lost position: the opponent (2) has five in a row. *)
Definition lost_board : board :=
  <[7%nat := [0; 0; 0; 2; 2; 2; 2; 2; 0; 0; 0; 0; 0; 0; 0]]>
    (<[8%nat := [0; 0; 0; 1; 1; 1; 1; 0; 0; 0; 0; 0; 0; 0; 0]]> empty_board).

(** *** A run on binary64 floats

    The engine with the evaluator of pure search and the stand-in
    collaborators, from [two_stones]: the first playout expands the root,
    the second one selects action 96 (row 6, column 6), expands that child
    and backs its value up. *)
Abbreviation demo_search :=
  (search (F:=float) random_predict Standin.get_reward
     Standin.get_valid_actions_1d Standin.index_to_pos).
Abbreviation demo_get_probs :=
  (get_probs (F:=float) random_predict Standin.get_reward
     Standin.get_valid_actions_1d Standin.index_to_pos).

Abbreviation expanded_root :=
  (snd (done_val (of_Z (F:=float) 0, MCTS_init) (demo_search 1 two_stones MCTS_init))).

Abbreviation demo_priors :=
  (default [] (s_p expanded_root !! two_stones)).

Abbreviation demo_child :=
  (done_val [] (next_state Standin.index_to_pos two_stones 96)).

Abbreviation demo_child_result :=
  (done_val (of_Z (F:=float) 0, MCTS_init)
     (demo_search 1 demo_child
        (cache_reward Standin.get_reward two_stones expanded_root))).

Abbreviation demo_distribution fuel :=
  (done_val ([], MCTS_init) (demo_get_probs fuel 3 two_stones MCTS_init)).

(** The first expansion of [two_stones] under [huge_predict]. *)
Abbreviation overflow_run :=
  (done_val (of_Z (F:=float) 0, MCTS_init)
     (search (F:=float) huge_predict Standin.get_reward
        Standin.get_valid_actions_1d Standin.index_to_pos 1 two_stones MCTS_init)).

(** ** [MCTSPlayer.choose_action_training] *)

Section Training.

Context {F : Type} `{Arith F}.
Variable predict : board → list F * F.
Variable get_reward : board → Z → Z.
Variable get_valid_actions_1d : board → Z → list Z.
Variable index_to_pos : Z → Z * Z.

(** Lines 158 to 167: the move and the distribution it was read from; on
    a board with no stone, [np.zeros(225)] with a 1 written at 112. *)
Definition choose_action_training (fuel : nat) (playout_count : nat)
    (state_p1_np : board) (st : store F)
    : outcome ((Z * Z) * list F * store F) :=
  if count_nonzero state_p1_np =? 0 then
    let probs := replicate 225 (of_Z 0) in
    obind (orelse (setitem probs 112 (of_Z 1)) IndexError) (λ probs,
    Done ((7, 7), probs, st))
  else
    obind (get_probs predict get_reward get_valid_actions_1d index_to_pos
             fuel playout_count state_p1_np st) (λ '(probs, st),
    obind (py_max probs) (λ m,
    obind (py_index probs m 0) (λ i,
    Done (index_to_pos i, probs, st)))).

End Training.

(** ** The network player of [players/AGC_v4.py] *)

(** [np.argmax] on a one-dimensional array: the first position of the
    greatest entry; ValueError on an empty array. *)
Fixpoint argmax_from {F : Type} `{Arith F} (l : list F) (i : Z) (best : F) (best_i : Z) : Z :=
  match l with
  | [] => best_i
  | x :: rest =>
      if fgtb x best then argmax_from rest (i + 1) x i
      else argmax_from rest (i + 1) best best_i
  end.

Definition np_argmax {F : Type} `{Arith F} (l : list F) : outcome Z :=
  match l with
  | [] => Raised ValueError
  | x :: rest => Done (argmax_from rest 1 x 0)
  end.

Module AGC.

Section Brain.

Context {F : Type} `{Arith F}.

(** The collaborators: [common.get_valid_actions(board, distance)] with
    [None] for the default distance, [common.detect_win],
    [common.index_to_pos], and the network [self.model.predict], which
    answers with a batch of policies and a batch of values. *)
Variable get_valid_actions : board → option Z → list (Z * Z).
Variable detect_win : board → Z → bool.
Variable index_to_pos : Z → Z * Z.
Variable model_predict : list (list board) → list (list F) * list F.

(** [[1 if p == player else 0 for p in col] for col in state]. *)
Definition input_layer (player : Z) (state : board) : board :=
  map (map (λ p, if p =? player then 1 else 0)) state.

(** [np.sum] on a nested list of ints. *)
Definition np_sum_cells (layer : board) : Z := py_sum (concat layer).

(** Lines 64 to 78; [np.expand_dims(..., 0)] makes a batch of one. *)
Definition convert_to_nn_readable (state : board) : list (list board) :=
  let input_layer_1 := input_layer 1 state in
  let input_layer_2 := input_layer 2 state in
  let '(input_layer_3, input_layer_4) :=
    if np_sum_cells input_layer_1 =? np_sum_cells input_layer_2
    then (replicate 15 (replicate 15 1), replicate 15 (replicate 15 0))
    else (replicate 15 (replicate 15 0), replicate 15 (replicate 15 1)) in
  [[input_layer_1; input_layer_2; input_layer_3; input_layer_4]].

(** The loop of lines 52 to 56: the first action that wins at once. *)
Fixpoint winning_action (board : board) (actions : list (Z * Z))
    : outcome (option (Z * Z)) :=
  match actions with
  | [] => Done None
  | action :: rest =>
      obind (orelse (setitem2 board (fst action) (snd action) 1) IndexError)
        (λ state_copy,
         if detect_win state_copy 1 then Done (Some action)
         else winning_action board rest)
  end.

(** [AGC.predict]; 0.99 is the double nearest to 99/100. *)
Definition predict (board : board) : outcome (list F * F) :=
  obind (winning_action board (get_valid_actions board None)) (λ w,
  match w with
  | Some action =>
      Done (map (λ i, if decide (index_to_pos i = action) then of_Z 1 else of_Z 0)
              (range BOARD_SIZE),
            fdiv (of_Z 99) (of_Z 100))
  | None =>
      let '(p, v) := model_predict (convert_to_nn_readable board) in
      obind (orelse (getitem p 0) IndexError) (λ p0,
      obind (orelse (getitem v 0) IndexError) (λ v0,
      Done (p0, v0)))
  end).

(** [AGCPlayer.choose_action]; [probs *= prob_mask] needs both arrays of
    one length, ValueError otherwise. *)
Definition choose_action (player_num : Z) (state : board) : outcome (Z * Z) :=
  let state_p1 :=
    if player_num =? 2 then convert_to_p1_perspective state else state in
  obind (predict state_p1) (λ '(probs, _),
  let valid_actions := get_valid_actions state (Some 2) in
  let prob_mask :=
    map (λ i, if bool_decide (index_to_pos i ∈ valid_actions) then 1 else 0)
        (range BOARD_SIZE) in
  if decide (length probs = length prob_mask) then
    let probs := zip_with (λ p m, fmul p (of_Z m)) probs prob_mask in
    obind (np_argmax probs) (λ i, Done (index_to_pos i))
  else Raised ValueError).

End Brain.

End AGC.

(** ** Predicates of the further theorems *)

(** [i] is the first position of the greatest count. *)
Definition first_most_visited (cs : list Z) (i : nat) : Prop :=
  ∃ c, cs !! i = Some c
     ∧ Forall (λ x, x < c) (take i cs)
     ∧ Forall (λ x, x ≤ c) cs.

(** [i] is the first position of the greatest entry. *)
Definition first_max (l : list R) (i : nat) : Prop :=
  ∃ m, l !! i = Some m
     ∧ Forall (λ x, (x < m)%R) (take i l)
     ∧ Forall (λ x, (x <= m)%R) l.

(** The number of indices in [0, 225) that are among [valid_actions]. *)
Definition legal_count (valid_actions : list Z) : nat :=
  length (filter (λ i, i ∈ valid_actions) (range BOARD_SIZE)).

(** Placing the own stone at [action] on [board] is possible and does not
    win at once. *)
Definition no_win (detect_win : board → Z → bool) (board : board)
    (action : Z * Z) : Prop :=
  ∃ state_copy,
    setitem2 board (fst action) (snd action) 1 = Some state_copy
    ∧ detect_win state_copy 1 = false.

(** The visits of all the edges that leave [key], whatever their action. *)
Definition edge_visits (edges : gmap (board * Z) Z) (key : board) : Z :=
  map_fold (λ k n total, if decide (fst k = key) then n + total else total)
           0 edges.

(** The bookkeeping of the visit counts: the two edge tables have the
    same keys, only expanded states have edges, and the visit count of an
    expanded state is the sum of the visits of its edges. *)
Definition visit_inv {F : Type} (st : store F) : Prop :=
  (∀ k, is_Some (sa_q st !! k) ↔ is_Some (sa_n st !! k))
  ∧ (∀ b a, is_Some (sa_n st !! (b, a)) → is_Some (s_p st !! b))
  ∧ (∀ b, is_Some (s_p st !! b) → s_n st !! b = Some (edge_visits (sa_n st) b)).

(** ** Stand-ins for the collaborators of the network player *)

(** The oracle of positions: the positions of the stand-in oracle of
    indices, with distance 1 when none is given. *)
Definition oracle_positions (b : board) (distance : option Z) : list (Z * Z) :=
  map Standin.index_to_pos (Standin.get_valid_actions_1d b (default 1 distance)).

(** A network that answers every input with one uniform policy and the
    value 0. *)
Definition constant_model {F : Type} `{Arith F} (nn_input : list (list board))
    : list (list F) * list F :=
  ([replicate 225 (fdiv (of_Z 1) (of_Z 225))], [of_Z 0]).

(** Player 1 has four in a row on row 1 and wins at (1, 0) or (1, 5). *)
Definition four_in_row : board :=
  <[1%nat := [0; 1; 1; 1; 1; 0; 0; 0; 0; 0; 0; 0; 0; 0; 0]]>
    (<[3%nat := [0; 2; 2; 2; 0; 0; 0; 0; 0; 0; 0; 0; 0; 0; 0]]> empty_board).

(** [no_win] as a test. *)
Definition no_winb (detect_win : board → Z → bool) (board : board)
    (action : Z * Z) : bool :=
  match setitem2 board (fst action) (snd action) 1 with
  | Some state_copy => negb (detect_win state_copy 1)
  | None => false
  end.

(** The second playout of the run on floats, from the expanded root. *)
Abbreviation demo_second :=
  (done_val (of_Z (F:=float) 0, MCTS_init) (demo_search 2 two_stones expanded_root)).

(** The third playout of the run on floats. *)
Abbreviation demo_third :=
  (done_val (of_Z (F:=float) 0, MCTS_init)
     (demo_search 3 two_stones (snd demo_second))).
(** * Theorems *)

Lemma done_val_eq {A} (d : A) (o : outcome A) :
  is_done o = true → o = Done (done_val d o).
Proof. destruct o; [reflexivity | discriminate]. Defined.

Lemma done_pair_eq {A B} (d : A * B) (o : outcome (A * B)) :
  is_done o = true → o = Done (fst (done_val d o), snd (done_val d o)).
Proof. destruct o as [[a b] |]; [reflexivity | discriminate]. Defined.

(** ** The perspective conversion *)

Lemma convert_cell_involutive n : cell_ok n → convert_cell (convert_cell n) = n.
Proof. intros [-> | [-> | ->]]; reflexivity. Qed.

Lemma convert_cell_fixed n : cell_ok n → convert_cell n = n ↔ n = 0.
Proof. intros [-> | [-> | ->]]; cbn; split; intros; lia. Qed.

Lemma count_nonzero_nil_iff (b : board) : count_nonzero b = 0 ↔ all_empty b.
Proof.
  unfold count_nonzero, all_empty.
  rewrite <- Forall_concat.
  induction (concat b) as [| n l IH].
  - split; [constructor | reflexivity].
  - rewrite filter_cons. destruct (decide (n ≠ 0)) as [Hn | Hn].
    + split; [cbn; lia |]. intros Hf. inversion Hf; subst. congruence.
    + assert (n = 0) as -> by lia. rewrite IH. split.
      * intros Hl. constructor; [reflexivity | exact Hl].
      * intros Hf. inversion Hf; assumption.
Qed.

Lemma convert_all_empty (b : board) : all_empty b → map (map convert_cell) b = b.
Proof.
  induction 1 as [| row b Hrow _ IH]; cbn; [reflexivity |].
  f_equal; [| exact IH].
  induction Hrow as [| n row -> _ IHrow]; cbn; [reflexivity |].
  f_equal. exact IHrow.
Qed.

Lemma convert_fixed_all_empty (b : board) :
  cells_ok b → map (map convert_cell) b = b → all_empty b.
Proof.
  induction 1 as [| row b Hrow _ IH]; cbn; intros Heq; [constructor |].
  injection Heq as Hr Hb. constructor; [| by apply IH].
  clear -Hrow Hr. induction Hrow as [| n row Hn _ IHrow]; [constructor |].
  cbn in Hr. injection Hr as Hn' Hrow'. constructor; [| by apply IHrow].
  by apply convert_cell_fixed.
Qed.

(** C10: on a board whose cells are 0, 1 or 2, converting the perspective
    twice gives the board back, cell for cell; one conversion fixes 0 and
    swaps 1 and 2. *)
Theorem convert_perspective_involutive (state : board) :
  cells_ok state →
  convert_perspective (convert_perspective state) = state
  ∧ convert_to_p1_perspective (convert_to_p1_perspective state) = state
  ∧ convert_cell 0 = 0 ∧ convert_cell 1 = 2 ∧ convert_cell 2 = 1.
Proof.
  intros Hok.
  assert (map (map convert_cell) (map (map convert_cell) state) = state) as Hinv.
  { induction Hok as [| row b Hrow _ IH]; cbn; [reflexivity |].
    f_equal; [| exact IH].
    induction Hrow as [| n row Hn _ IHrow]; cbn; [reflexivity |].
    f_equal; [by apply convert_cell_involutive | exact IHrow]. }
  unfold convert_perspective, convert_to_p1_perspective.
  repeat split; try exact Hinv; reflexivity.
Qed.

Lemma two_stones_cells_ok : cells_ok two_stones.
Proof.
  unfold cells_ok. vm_compute two_stones.
  repeat (constructor; [repeat (constructor; [unfold cell_ok; lia |]); constructor |]).
  constructor.
Defined.

Lemma convert_perspective_involutive_witness :
  convert_perspective (convert_perspective two_stones) = two_stones.
Proof. exact (proj1 (convert_perspective_involutive two_stones two_stones_cells_ok)). Defined.

(** C2, as the spec states it, fails: on a canonical board that holds a
    stone the conversion changes cell values. *)
Lemma convert_perspective_not_noop :
  cells_ok two_stones ∧ shape_ok two_stones
  ∧ getitem2 two_stones 7 7 = Some 1
  ∧ getitem2 (convert_perspective two_stones) 7 7 = Some 2
  ∧ convert_perspective two_stones ≠ two_stones.
Proof.
  split; [exact two_stones_cells_ok |].
  split; [split; [reflexivity | vm_compute; repeat constructor] |].
  split; [reflexivity |]. split; [reflexivity |].
  intros Heq. apply (f_equal (λ b, getitem2 b 7 7)) in Heq.
  vm_compute in Heq. discriminate.
Qed.

(** C2 (amended): on a board whose cells are 0, 1 or 2 the conversion
    leaves the cell values unchanged exactly when the board holds no
    stone, every stone changes sides; the board of player 1 is passed on
    as it is because [choose_action] does not convert it. *)
Theorem convert_perspective_noop_iff (state : board) :
  cells_ok state →
  (convert_perspective state = state ↔ count_nonzero state = 0)
  ∧ (convert_to_p1_perspective state = state ↔ count_nonzero state = 0)
  ∧ player_perspective 1 state = state
  ∧ player_perspective 2 state = convert_to_p1_perspective state.
Proof.
  intros Hok. unfold convert_perspective, convert_to_p1_perspective.
  rewrite count_nonzero_nil_iff.
  split; [| split; [| split; reflexivity]];
    (split; [by apply convert_fixed_all_empty | apply convert_all_empty]).
Qed.

Lemma convert_perspective_noop_iff_witness :
  (convert_perspective two_stones = two_stones ↔ count_nonzero two_stones = 0)
  ∧ player_perspective 1 two_stones = two_stones.
Proof.
  destruct (convert_perspective_noop_iff two_stones two_stones_cells_ok)
    as (Hconv & _ & Hplayer & _).
  exact (conj Hconv Hplayer).
Defined.

(** ** The engine, for any arithmetic and any collaborators *)

Section EngineFacts.

Context {F : Type} `{Arith F}.
Variable predict : board → list F * F.
Variable get_reward : board → Z → Z.
Variable get_valid_actions_1d : board → Z → list Z.
Variable index_to_pos : Z → Z * Z.

Local Abbreviation search := (search predict get_reward get_valid_actions_1d index_to_pos).
Local Abbreviation playouts := (playouts predict get_reward get_valid_actions_1d index_to_pos).
Local Abbreviation get_probs := (get_probs predict get_reward get_valid_actions_1d index_to_pos).
Local Abbreviation choose_action :=
  (choose_action predict get_reward get_valid_actions_1d index_to_pos).
Local Abbreviation cache_reward := (cache_reward get_reward).
Local Abbreviation terminal_reward := (terminal_reward get_reward).

Lemma cache_reward_lookup (st : store F) state :
  s_r (cache_reward state st) !! state = Some (terminal_reward st state).
Proof.
  unfold cache_reward, terminal_reward.
  destruct (s_r st !! state) eqn:E; cbn; [exact E | apply lookup_insert_eq].
Qed.

Lemma cache_reward_frame (st : store F) state :
  let st' := cache_reward state st in
  sa_q st' = sa_q st ∧ sa_n st' = sa_n st ∧ s_n st' = s_n st ∧ s_p st' = s_p st
  ∧ s_valid_moves st' = s_valid_moves st ∧ events st' = events st.
Proof.
  unfold cache_reward. destruct (s_r st !! state); cbn; auto 10.
Qed.

(** One step of [search], reading the cached reward first. *)
Lemma search_unfold fuel state (st : store F) :
  search (S fuel) state st =
    let st0 := cache_reward state st in
    let r := terminal_reward st state in
    if is_terminal state r then Done (of_Z (- r), st0)
    else match s_p st0 !! state with
         | None => expand predict get_valid_actions_1d state st0
         | Some _ =>
             obind (select st0 state) (λ best_action,
             obind (next_state index_to_pos state best_action) (λ next_s,
             obind (search fuel next_s st0) (λ '(value, st1),
             backup state best_action value st1)))
         end.
Proof. cbn [search]. rewrite cache_reward_lookup. reflexivity. Qed.

Lemma is_terminal_true state r :
  is_terminal state r = true ↔ r ≠ 0 ∨ count_nonzero state = BOARD_SIZE.
Proof. unfold is_terminal. rewrite orb_true_iff, negb_true_iff. lia. Qed.

(** C3: when the cached reward of the board is not 0, or the board has no
    empty cell, [search] returns the negated reward and leaves every prior
    vector, visit count and edge record as it was (the only table written
    is the reward cache). *)
Theorem search_terminal fuel state (st : store F) :
  terminal_reward st state ≠ 0 ∨ count_nonzero state = BOARD_SIZE →
  ∃ st', search (S fuel) state st = Done (of_Z (- terminal_reward st state), st')
    ∧ s_r st' !! state = Some (terminal_reward st state)
    ∧ s_p st' = s_p st ∧ s_n st' = s_n st
    ∧ sa_q st' = sa_q st ∧ sa_n st' = sa_n st
    ∧ s_valid_moves st' = s_valid_moves st ∧ events st' = events st.
Proof.
  intros Hterm. exists (cache_reward state st).
  rewrite search_unfold. cbn zeta.
  apply is_terminal_true in Hterm. rewrite Hterm.
  destruct (cache_reward_frame st state) as (? & ? & ? & ? & ? & ?).
  rewrite cache_reward_lookup. auto 10.
Qed.

(** C8: on a board with no stone [choose_action] answers (7, 7) whatever
    the player number, the playout count, the recursion budget and the
    collaborators are, and the search object is left untouched: no table
    entry is written and no evaluator call or output is recorded. *)
Theorem choose_action_empty fuel player_num playout_count state (st : store F) :
  all_empty state →
  choose_action fuel player_num playout_count state st = Done ((7, 7), st).
Proof.
  intros Hempty. unfold choose_action, player_perspective, convert_to_p1_perspective.
  rewrite (convert_all_empty state Hempty).
  apply count_nonzero_nil_iff in Hempty.
  destruct (player_num =? 2); rewrite Hempty; reflexivity.
Qed.

(** C6: the backup after the recursive call.  When the call on the child
    returned [value] in store [st1]: an existing edge gets the mean
    (N * Q + value) / (N + 1) and one more visit, a missing edge is
    created with mean [value] and one visit; the visit count of the state
    grows by one, nothing else changes, and [search] returns the negated
    value. *)
Theorem search_backup fuel state (st : store F) best_action next_s value st1 n :
  is_terminal state (terminal_reward st state) = false →
  is_Some (s_p st !! state) →
  select (cache_reward state st) state = Done best_action →
  next_state index_to_pos state best_action = Done next_s →
  search fuel next_s (cache_reward state st) = Done (value, st1) →
  s_n st1 !! state = Some n →
  (∀ q na,
     sa_q st1 !! (state, best_action) = Some q →
     sa_n st1 !! (state, best_action) = Some na →
     search (S fuel) state st =
       Done (fopp value,
             mkStore
               (<[(state, best_action) :=
                    fdiv (fadd (fmul (of_Z na) q) value) (of_Z (na + 1))]> (sa_q st1))
               (<[(state, best_action) := na + 1]> (sa_n st1))
               (<[state := n + 1]> (s_n st1))
               (s_p st1) (s_r st1) (s_valid_moves st1) (events st1)))
  ∧ (sa_q st1 !! (state, best_action) = None →
     search (S fuel) state st =
       Done (fopp value,
             mkStore
               (<[(state, best_action) := value]> (sa_q st1))
               (<[(state, best_action) := 1]> (sa_n st1))
               (<[state := n + 1]> (s_n st1))
               (s_p st1) (s_r st1) (s_valid_moves st1) (events st1))).
Proof.
  intros Hnt [ps Hps] Hsel Hnext Hrec Hn.
  assert (search (S fuel) state st = backup state best_action value st1) as ->.
  { rewrite search_unfold. cbn zeta. rewrite Hnt.
    destruct (cache_reward_frame st state) as (_ & _ & _ & -> & _).
    rewrite Hps, Hsel. cbn [obind]. rewrite Hnext. cbn [obind].
    rewrite Hrec. reflexivity. }
  unfold backup. split.
  - intros q na -> ->. cbn. rewrite Hn. reflexivity.
  - intros ->. cbn. rewrite Hn. reflexivity.
Qed.

(** *** What one expansion and one backup write *)

Lemma masked_probs_length (probs : list F) mask masked :
  masked_probs probs mask = Some masked → length masked = 225%nat.
Proof.
  unfold masked_probs. intros Hm%length_mapM.
  rewrite <- Hm. unfold range. by rewrite length_seqZ.
Qed.

Lemma expand_Done state (st : store F) v st' :
  expand predict get_valid_actions_1d state st = Done (v, st') →
  v = fopp (snd (predict state))
  ∧ sa_q st' = sa_q st ∧ sa_n st' = sa_n st ∧ s_r st' = s_r st
  ∧ s_n st' = <[state := 0]> (s_n st)
  ∧ s_valid_moves st'
    = <[state := get_valid_actions_1d state 1]> (s_valid_moves st)
  ∧ ∃ prior, s_p st' = <[state := prior]> (s_p st) ∧ length prior = 225%nat.
Proof.
  unfold expand. destruct (predict state) as [probs value].
  destruct (masked_probs probs _) as [masked |] eqn:Hm; [| discriminate].
  apply masked_probs_length in Hm. cbn [orelse obind snd].
  destruct (feqb (np_sum masked) (of_Z 0));
    [| destruct (negb (feqb (np_sum masked) (of_Z 1)))];
    intros [= <- <-]; cbn; repeat split; eexists; (split; [reflexivity |]).
  - unfold uniform_probs. by rewrite length_replicate.
  - by rewrite length_map.
  - exact Hm.
Qed.

Lemma backup_Done state best_action value (st1 : store F) v st2 :
  backup state best_action value st1 = Done (v, st2) →
  v = fopp value
  ∧ s_p st2 = s_p st1 ∧ s_r st2 = s_r st1
  ∧ s_valid_moves st2 = s_valid_moves st1 ∧ events st2 = events st1
  ∧ (∃ n, s_n st1 !! state = Some n ∧ s_n st2 = <[state := n + 1]> (s_n st1))
  ∧ ((∃ q na,
        sa_q st1 !! (state, best_action) = Some q
        ∧ sa_n st1 !! (state, best_action) = Some na
        ∧ sa_q st2 = <[(state, best_action) :=
                         fdiv (fadd (fmul (of_Z na) q) value) (of_Z (na + 1))]> (sa_q st1)
        ∧ sa_n st2 = <[(state, best_action) := na + 1]> (sa_n st1))
     ∨ (sa_q st1 !! (state, best_action) = None
        ∧ sa_q st2 = <[(state, best_action) := value]> (sa_q st1)
        ∧ sa_n st2 = <[(state, best_action) := 1]> (sa_n st1))).
Proof.
  unfold backup.
  destruct (sa_q st1 !! (state, best_action)) as [q |] eqn:Hq.
  - destruct (sa_n st1 !! (state, best_action)) as [na |] eqn:Hna; [| discriminate].
    cbn. destruct (s_n st1 !! state) as [n |] eqn:Hn; [| discriminate].
    cbn. intros [= <- <-]. cbn. repeat split; [by eexists |].
    left. by eexists _, _.
  - cbn. destruct (s_n st1 !! state) as [n |] eqn:Hn; [| discriminate].
    cbn. intros [= <- <-]. cbn. repeat split; [by eexists |].
    by right.
Qed.

Lemma playouts_search_seq fuel n : ∀ state (st : store F),
  playouts fuel n state st
  = search_seq predict get_reward get_valid_actions_1d index_to_pos
      fuel (replicate n state) st.
Proof.
  induction n as [| n IH]; intros state st; [reflexivity |].
  cbn [playouts replicate search_seq].
  destruct (search fuel state st) as [[v st1] |]; [| reflexivity].
  cbn [obind]. apply IH.
Qed.

(** *** Independence of the recursion budget *)

Lemma search_fuel_mono fuel : ∀ state (st : store F) r fuel',
  search fuel state st = r → r ≠ Raised RecursionError → (fuel ≤ fuel')%nat →
  search fuel' state st = r.
Proof.
  induction fuel as [| fuel IH]; intros state st r fuel' Hr Hne Hle.
  - cbn in Hr. congruence.
  - destruct fuel' as [| fuel']; [lia |].
    rewrite search_unfold in *. cbn zeta in *.
    destruct (is_terminal _ _); [exact Hr |].
    destruct (s_p _ !! state); [| exact Hr].
    destruct (select _ state) as [a |]; [| exact Hr]. cbn [obind] in *.
    destruct (next_state _ state a) as [next_s |]; [| exact Hr]. cbn [obind] in *.
    destruct (search fuel next_s _) as [[v st1] | e] eqn:Hrec.
    + rewrite (IH _ _ _ fuel' Hrec); [exact Hr | discriminate | lia].
    + cbn [obind] in Hr. subst r.
      rewrite (IH _ _ _ fuel' Hrec); [reflexivity | exact Hne | lia].
Qed.

Lemma playouts_fuel_mono n : ∀ fuel fuel' state (st : store F) r,
  playouts fuel n state st = r → r ≠ Raised RecursionError → (fuel ≤ fuel')%nat →
  playouts fuel' n state st = r.
Proof.
  induction n as [| n IH]; intros fuel fuel' state st r Hr Hne Hle; [exact Hr |].
  cbn [playouts] in *.
  destruct (search fuel state st) as [[v st1] | e] eqn:Hs.
  - rewrite (search_fuel_mono _ _ _ _ fuel' Hs); [| discriminate | lia].
    cbn [obind] in *. eapply IH; eauto.
  - cbn [obind] in Hr. subst r.
    rewrite (search_fuel_mono _ _ _ _ fuel' Hs); [reflexivity | congruence | lia].
Qed.

Lemma get_probs_fuel_mono fuel fuel' n state (st : store F) r :
  get_probs fuel n state st = Done r → (fuel ≤ fuel')%nat →
  get_probs fuel' n state st = Done r.
Proof.
  unfold get_probs. intros Hr Hle.
  destruct (playouts fuel n state st) as [st1 | e] eqn:Hp; [| discriminate].
  rewrite (playouts_fuel_mono _ _ fuel' _ _ _ Hp); [exact Hr | discriminate | lia].
Qed.

End EngineFacts.

Lemma empty_board_all_empty : all_empty empty_board.
Proof.
  unfold all_empty. vm_compute empty_board.
  repeat (constructor; [repeat (constructor; [reflexivity |]); constructor |]).
  constructor.
Defined.

Lemma choose_action_empty_witness :
  choose_action (F:=float) random_predict Standin.get_reward
    Standin.get_valid_actions_1d Standin.index_to_pos 0 2 400 empty_board MCTS_init
  = Done ((7, 7), MCTS_init).
Proof. apply choose_action_empty. exact empty_board_all_empty. Defined.

(** *** Determinism *)

Section Determinism.

Context {F : Type} `{Arith F}.
Variables predict predict' : board → list F * F.
Variables get_reward get_reward' : board → Z → Z.
Variables get_valid_actions_1d get_valid_actions_1d' : board → Z → list Z.
Variables index_to_pos index_to_pos' : Z → Z * Z.

Hypothesis same_predict : ∀ b, predict b = predict' b.
Hypothesis same_reward : ∀ b p, get_reward b p = get_reward' b p.
Hypothesis same_actions : ∀ b d, get_valid_actions_1d b d = get_valid_actions_1d' b d.
Hypothesis same_pos : ∀ i, index_to_pos i = index_to_pos' i.

Lemma search_ext fuel : ∀ state (st : store F),
  search predict get_reward get_valid_actions_1d index_to_pos fuel state st
  = search predict' get_reward' get_valid_actions_1d' index_to_pos' fuel state st.
Proof.
  induction fuel as [| fuel IH]; intros state st; [reflexivity |].
  rewrite !search_unfold. cbn zeta.
  unfold terminal_reward, cache_reward, expand, next_state.
  rewrite same_reward, same_predict, same_actions.
  destruct (is_terminal _ _); [reflexivity |].
  destruct (s_p _ !! state); [| reflexivity].
  destruct (select _ state) as [a |]; [| reflexivity]. cbn [obind].
  rewrite same_pos.
  destruct (orelse _ IndexError) as [next_s |]; [| reflexivity]. cbn [obind].
  rewrite IH. reflexivity.
Qed.

Lemma playouts_ext fuel n : ∀ state (st : store F),
  playouts predict get_reward get_valid_actions_1d index_to_pos fuel n state st
  = playouts predict' get_reward' get_valid_actions_1d' index_to_pos' fuel n state st.
Proof.
  induction n as [| n IH]; intros state st; [reflexivity |].
  cbn [playouts]. rewrite search_ext.
  destruct (search _ _ _ _ fuel state st) as [[v st1] |]; [| reflexivity].
  cbn [obind]. apply IH.
Qed.

(** C9: two runs of [get_probs] from the same root, each on a new search
    object, with collaborators that answer alike, return the same
    distribution (and leave the same tables), whatever recursion budget
    each run had: the engine has no other input. *)
Theorem get_probs_deterministic fuel fuel' playout_count root probs st probs' st' :
  get_probs predict get_reward get_valid_actions_1d index_to_pos
    fuel playout_count root MCTS_init = Done (probs, st) →
  get_probs predict' get_reward' get_valid_actions_1d' index_to_pos'
    fuel' playout_count root MCTS_init = Done (probs', st') →
  probs = probs' ∧ st = st'.
Proof.
  intros Hrun Hrun'.
  apply (get_probs_fuel_mono _ _ _ _ _ (Nat.max fuel fuel')) in Hrun; [| lia].
  apply (get_probs_fuel_mono _ _ _ _ _ (Nat.max fuel fuel')) in Hrun'; [| lia].
  unfold get_probs in Hrun, Hrun'. rewrite playouts_ext in Hrun.
  rewrite Hrun in Hrun'. by injection Hrun' as -> ->.
Qed.

End Determinism.


(** ** Python indexing *)

Lemma getitem_nonneg {A} (l : list A) (i : Z) :
  0 ≤ i → getitem l i = l !! Z.to_nat i.
Proof.
  intros Hi. unfold getitem, norm_index.
  destruct (Z.leb_spec 0 i); [| lia].
  destruct (Z.ltb_spec i (Z.of_nat (length l))); cbn; [reflexivity |].
  symmetry. apply lookup_ge_None. lia.
Qed.

Lemma getitem_is_Some {A} (l : list A) (i : Z) :
  0 ≤ i < Z.of_nat (length l) → is_Some (getitem l i).
Proof.
  intros Hi. rewrite getitem_nonneg by lia. apply lookup_lt_is_Some. lia.
Qed.

Lemma mapM_pointwise {A B} (f : A → option B) (g : A → B) (l : list A) :
  Forall (λ x, f x = Some (g x)) l → mapM f l = Some (g <$> l).
Proof.
  induction 1 as [| x l Hx _ IH]; [reflexivity |].
  cbn. rewrite Hx. cbn. rewrite IH. reflexivity.
Qed.

Lemma range_elem (n i : Z) : i ∈ range n ↔ 0 ≤ i < n.
Proof. unfold range. rewrite elem_of_seqZ. lia. Qed.

Lemma mask_of_lookup (valid_actions : list Z) (i : Z) :
  0 ≤ i < BOARD_SIZE →
  getitem (mask_of valid_actions) i
  = Some (if bool_decide (i ∈ valid_actions) then 1 else 0).
Proof.
  intros Hi. rewrite getitem_nonneg by lia. unfold mask_of, range.
  rewrite list_lookup_fmap, lookup_seqZ_lt by lia. cbn.
  replace (0 + Z.of_nat (Z.to_nat i)) with i by lia. reflexivity.
Qed.

(** ** Placing a stone *)

Lemma count_row_app (l1 l2 : list Z) :
  count_row (l1 ++ l2) = count_row l1 + count_row l2.
Proof. unfold count_row. rewrite filter_app, length_app. lia. Qed.

Lemma count_row_cons (n : Z) (l : list Z) :
  count_row (n :: l) = (if decide (n = 0) then 0 else 1) + count_row l.
Proof.
  unfold count_row. rewrite filter_cons.
  destruct (decide (n ≠ 0)), (decide (n = 0)); cbn [length]; lia.
Qed.

Lemma count_nonzero_cons (row : list Z) (b : board) :
  count_nonzero (row :: b) = count_row row + count_nonzero b.
Proof. unfold count_nonzero. cbn [concat]. apply count_row_app. Qed.

Lemma count_nonzero_app (b1 b2 : board) :
  count_nonzero (b1 ++ b2) = count_nonzero b1 + count_nonzero b2.
Proof.
  induction b1 as [| row b1 IH]; [reflexivity |].
  cbn [app]. rewrite !count_nonzero_cons, IH. lia.
Qed.

Lemma convert_cell_zero (n : Z) : convert_cell n = 0 ↔ n = 0.
Proof. unfold convert_cell. destruct (Z.eqb_spec n 2); lia. Qed.

Lemma count_row_convert (row : list Z) :
  count_row (map convert_cell row) = count_row row.
Proof.
  induction row as [| n row IH]; [reflexivity |].
  cbn [map]. rewrite !count_row_cons, IH.
  pose proof (convert_cell_zero n).
  destruct (decide (convert_cell n = 0)), (decide (n = 0)); lia.
Qed.

Lemma count_nonzero_convert (b : board) :
  count_nonzero (convert_perspective b) = count_nonzero b.
Proof.
  unfold convert_perspective. induction b as [| row b IH]; [reflexivity |].
  cbn [map]. by rewrite !count_nonzero_cons, IH, count_row_convert.
Qed.

Lemma count_row_place (row : list Z) (j : nat) :
  row !! j = Some 0 → count_row (<[j := 2]> row) = count_row row + 1.
Proof.
  intros Hj. pose proof (lookup_lt_Some _ _ _ Hj) as Hlt.
  rewrite insert_take_drop by exact Hlt.
  replace (count_row row) with (count_row (take j row ++ 0 :: drop (S j) row))
    by (by rewrite take_drop_middle).
  rewrite !count_row_app, !count_row_cons.
  destruct (decide (2 = 0)), (decide (0 = 0)); lia.
Qed.

Lemma count_nonzero_insert_row (b : board) (k : nat) (row row' : list Z) :
  b !! k = Some row →
  count_nonzero (<[k := row']> b) = count_nonzero b - count_row row + count_row row'.
Proof.
  intros Hk. pose proof (lookup_lt_Some _ _ _ Hk) as Hlt.
  rewrite insert_take_drop by exact Hlt.
  replace (count_nonzero b)
    with (count_nonzero (take k b ++ row :: drop (S k) b))
    by (by rewrite take_drop_middle).
  rewrite !count_nonzero_app, !count_nonzero_cons. lia.
Qed.

Lemma shape_ok_concat (b : board) : shape_ok b → length (concat b) = 225%nat.
Proof.
  intros [Hlen Hrows].
  assert (length (concat b) = (length b * 15)%nat) as ->; [| lia].
  clear Hlen. induction Hrows as [| row b Hrow _ IH]; [reflexivity |].
  cbn [concat length]. rewrite length_app, IH, Hrow. lia.
Qed.

Lemma count_nonzero_le (b : board) : shape_ok b → count_nonzero b ≤ BOARD_SIZE.
Proof.
  intros Hshape. unfold count_nonzero, BOARD_SIZE.
  pose proof (length_filter (λ n, n ≠ 0) (concat b)) as Hle.
  rewrite (shape_ok_concat b Hshape) in Hle. lia.
Qed.

(** The move of lines 102 to 104 on an empty cell: one stone more, same
    shape. *)
Lemma place_on_empty (b : board) (r c : Z) :
  shape_ok b → getitem2 b r c = Some 0 →
  ∃ b', setitem2 (convert_perspective b) r c 2 = Some b'
        ∧ shape_ok b' ∧ count_nonzero b' = count_nonzero b + 1.
Proof.
  intros [Hlen Hrows] Hcell. unfold getitem2, getitem in Hcell.
  destruct (norm_index (length b) r) as [k |] eqn:Hk; [| discriminate].
  cbn in Hcell. destruct (b !! k) as [row |] eqn:Hrow; [| discriminate].
  cbn in Hcell.
  destruct (norm_index (length row) c) as [j |] eqn:Hj; [| discriminate].
  cbn in Hcell.
  unfold setitem2, setitem, convert_perspective.
  rewrite length_map, Hk. cbn.
  rewrite list_lookup_fmap, Hrow. cbn.
  rewrite length_map, Hj. cbn.
  eexists. split; [reflexivity |]. split; [split |].
  - by rewrite length_insert, length_map.
  - apply Forall_insert.
    + apply Forall_fmap. eapply Forall_impl; [exact Hrows |].
      intros row0 Hrow0. cbn. by rewrite length_map.
    + rewrite length_insert, length_map.
      eapply Forall_lookup_1 in Hrows; [exact Hrows | exact Hrow].
  - rewrite (count_nonzero_insert_row _ k (map convert_cell row))
      by (by rewrite list_lookup_fmap, Hrow).
    rewrite count_row_place
      by (rewrite list_lookup_fmap, Hcell; reflexivity).
    fold (convert_perspective b). rewrite count_nonzero_convert. lia.
Qed.

(** ** Counting the visits of the root edges *)

Lemma py_sum_cons (x : Z) (l : list Z) : py_sum (x :: l) = x + py_sum l.
Proof.
  unfold py_sum. cbn [fold_left].
  assert (∀ l a, fold_left Z.add l a = a + fold_left Z.add l 0) as Hacc.
  { clear. induction l as [| y l IH]; intros a; cbn [fold_left]; [lia |].
    rewrite (IH (a + y)), (IH (0 + y)). lia. }
  rewrite Hacc. lia.
Qed.

Lemma py_sum_bump (f g : Z → Z) (a : Z) (l : list Z) :
  NoDup l → (∀ i, i ≠ a → g i = f i) →
  py_sum (g <$> l)
  = py_sum (f <$> l) + (if decide (a ∈ l) then g a - f a else 0).
Proof.
  intros Hnd Hsame. induction Hnd as [| i l Hi _ IH]; [reflexivity |].
  cbn [fmap list_fmap]. rewrite !py_sum_cons, IH.
  destruct (decide (a ∈ i :: l)) as [Hin' | Hnin'], (decide (a ∈ l)) as [Hin | Hnin].
  - assert (i ≠ a) as Hne by congruence. rewrite (Hsame i Hne). lia.
  - apply elem_of_cons in Hin' as [<- | Hin']; [lia | contradiction].
  - exfalso. apply Hnin'. by right.
  - assert (i ≠ a) as Hne by (intros ->; apply Hnin'; left).
    rewrite (Hsame i Hne). lia.
Qed.

Lemma counts_same {F : Type} (st st' : store F) (root : board) :
  (∀ a, sa_n st' !! (root, a) = sa_n st !! (root, a)) →
  counts st' root = counts st root.
Proof.
  intros Hsame. unfold counts. apply list_fmap_ext. intros _ a _.
  by rewrite Hsame.
Qed.

Lemma counts_init {F : Type} (root : board) :
  py_sum (counts (MCTS_init : store F) root) = 0.
Proof.
  unfold counts. cbn [sa_n MCTS_init].
  induction (range BOARD_SIZE) as [| i l IH]; [reflexivity |].
  cbn [fmap list_fmap]. rewrite py_sum_cons, lookup_empty. exact IH.
Qed.

Lemma counts_bump {F : Type} (st st' : store F) (root : board) (a m : Z) :
  0 ≤ a < BOARD_SIZE →
  sa_n st' = <[(root, a) := m]> (sa_n st) →
  py_sum (counts st' root)
  = py_sum (counts st root) - default 0 (sa_n st !! (root, a)) + m.
Proof.
  intros Ha Hins. unfold counts.
  rewrite (py_sum_bump
             (λ i, match sa_n st !! (root, i) with Some n => n | None => 0 end)
             _ a); [| apply NoDup_seqZ |].
  - rewrite decide_True by (by apply range_elem).
    rewrite Hins, lookup_insert_eq. destruct (sa_n st !! (root, a)); cbn; lia.
  - intros i Hi. rewrite Hins, lookup_insert_ne by congruence. reflexivity.
Qed.

(** ** Selection, for any arithmetic *)

Lemma comparableb_sound {F : Type} `{Arith F} (scores : list F) :
  comparableb scores = true → comparable scores.
Proof.
  unfold comparableb. rewrite !andb_true_iff, !forallb_forall.
  intros [[Hinf Hasym] Htrans].
  split; [| split].
  - intros x Hx%list_elem_of_In. by apply Hinf.
  - intros x y Hx%list_elem_of_In Hy%list_elem_of_In Hxy.
    specialize (Hasym x Hx). rewrite forallb_forall in Hasym.
    specialize (Hasym y Hy). rewrite Hxy in Hasym. cbn in Hasym.
    by apply negb_true_iff.
  - intros x y z Hx%list_elem_of_In Hy%list_elem_of_In Hz%list_elem_of_In Hxz Hyz.
    specialize (Htrans x Hx). rewrite forallb_forall in Htrans.
    specialize (Htrans y Hy). rewrite forallb_forall in Htrans.
    specialize (Htrans z Hz). rewrite Hxz, Hyz in Htrans. exact Htrans.
Qed.

Section Selection.

Context {F : Type} `{Arith F}.
Variable predict : board → list F * F.
Variable get_reward : board → Z → Z.
Variable get_valid_actions_1d : board → Z → list Z.
Variable index_to_pos : Z → Z * Z.

Local Abbreviation search := (search predict get_reward get_valid_actions_1d index_to_pos).
Local Abbreviation cache_reward := (cache_reward get_reward).
Local Abbreviation terminal_reward := (terminal_reward get_reward).
Local Abbreviation next_state := (next_state index_to_pos).

Lemma select_loop_set_s_r f (st : store F) key actions : ∀ best_s best_a,
  select_loop (set_s_r f st) key actions best_s best_a
  = select_loop st key actions best_s best_a.
Proof.
  induction actions as [| a rest IH]; intros best_s best_a; [reflexivity |].
  cbn [select_loop].
  change (puct_score (set_s_r f st) key a) with (puct_score st key a).
  destruct (puct_score st key a) as [score |]; [| reflexivity].
  cbn [obind]. by rewrite !IH.
Qed.

Lemma select_cache_reward (st : store F) state key :
  select (cache_reward state st) key = select st key.
Proof.
  unfold cache_reward. destruct (s_r st !! state); [reflexivity |].
  unfold select. cbn [s_valid_moves set_s_r].
  destruct (s_valid_moves st !! key) as [actions |]; [| reflexivity].
  cbn [orelse obind]. by rewrite select_loop_set_s_r.
Qed.

(** The score the loop computes is the formula of the spec, when
    [math.sqrt] gets no negative argument. *)
Lemma puct_score_formula (st : store F) key a prior n :
  s_p st !! key = Some prior →
  is_Some (getitem prior a) →
  s_n st !! key = Some n →
  fgtb (of_Z 0) (of_Z n) = false →
  fgtb (of_Z 0) (fadd (of_Z n) EPS) = false →
  (is_Some (sa_q st !! (key, a)) → is_Some (sa_n st !! (key, a))) →
  puct_score st key a = Done (puct_formula st key a).
Proof.
  intros Hp [p Hpa] Hn Hsqrt Hsqrt' Hedge. unfold puct_score, puct_formula, math_sqrt.
  rewrite Hp, Hn. cbn [orelse obind mbind option_bind default]. rewrite Hpa.
  cbn [orelse obind default]. rewrite Hsqrt, Hsqrt'.
  destruct (sa_q st !! (key, a)) as [q |] eqn:Hq.
  - destruct Hedge as [na Hna]; [by eexists |]. rewrite Hna. reflexivity.
  - reflexivity.
Qed.

(** The loop of lines 90 to 100, started on the actions that come after
    the ones already seen. *)
Lemma select_loop_first_greatest (st : store F) key score : ∀ rest seen best_s best_a,
  (∀ a, a ∈ rest → puct_score st key a = Done (score a)) →
  comparable (map score (seen ++ rest)) →
  match best_s with
  | None => seen = []
  | Some b => b = score best_a ∧ first_greatest score seen best_a
  end →
  seen ++ rest ≠ [] →
  ∃ a, select_loop st key rest best_s best_a = Done (Some (score a), a)
       ∧ first_greatest score (seen ++ rest) a.
Proof.
  induction rest as [| a rest IH]; intros seen best_s best_a Hscore Hcmp Hbest Hne.
  - rewrite app_nil_r in *. destruct best_s as [b |]; [| congruence].
    destruct Hbest as [-> Hfg]. by exists best_a.
  - cbn [select_loop]. rewrite (Hscore a) by (left). cbn [obind].
    replace (seen ++ a :: rest) with ((seen ++ [a]) ++ rest) in *
      by (by rewrite <- app_assoc).
    assert (∀ a', a' ∈ rest → puct_score st key a' = Done (score a')) as Hscore'
      by (intros a' Ha'; apply Hscore; by right).
    assert ((seen ++ [a]) ++ rest ≠ []) as Hne' by (by destruct seen).
    destruct Hcmp as (Hinf & Hasym & Htrans).
    assert (∀ a', a' ∈ seen ++ [a] → score a' ∈ map score ((seen ++ [a]) ++ rest))
      as Hmem.
    { intros a' Ha'. apply list_elem_of_fmap_2. apply elem_of_app. by left. }
    assert (a ∈ seen ++ [a]) as Ha by (apply elem_of_app; right; left).
    destruct best_s as [b |]; cbn [beats].
    + destruct Hbest as [-> (before & after & -> & Hbefore & Hafter)].
      assert (best_a ∈ (before ++ best_a :: after) ++ [a]) as Hbest_in
        by (apply elem_of_app; left; apply elem_of_app; right; left).
      destruct (fgtb (score a) (score best_a)) eqn:Hgt.
      * apply IH; [exact Hscore' | exact (conj Hinf (conj Hasym Htrans)) | | exact Hne'].
        split; [reflexivity |]. exists (before ++ best_a :: after), [].
        split; [reflexivity |]. split; [| constructor].
        apply Forall_forall. intros a' Ha'.
        assert (a' ∈ (before ++ best_a :: after) ++ [a]) as Ha'_in
          by (apply elem_of_app; by left).
        apply (Htrans _ _ (score best_a));
          [by apply Hmem | by apply Hmem | by apply Hmem | exact Hgt |].
        apply elem_of_app in Ha' as [Ha' | [-> | Ha']%elem_of_cons].
        -- apply Hasym; [by apply Hmem | by apply Hmem |].
           by apply (proj1 (Forall_forall _ _) Hbefore).
        -- destruct (fgtb (score best_a) (score best_a)) eqn:Hself; [| reflexivity].
           rewrite (Hasym _ _ (Hmem _ Hbest_in) (Hmem _ Hbest_in) Hself) in Hself.
           discriminate.
        -- by apply (proj1 (Forall_forall _ _) Hafter).
      * apply IH; [exact Hscore' | exact (conj Hinf (conj Hasym Htrans)) | | exact Hne'].
        split; [reflexivity |]. exists before, (after ++ [a]).
        split; [by rewrite <- app_assoc |]. split; [exact Hbefore |].
        apply Forall_app. split; [exact Hafter | by constructor].
    + subst seen. rewrite (Hinf (score a)) by (by apply Hmem).
      apply IH; [exact Hscore' | exact (conj Hinf (conj Hasym Htrans)) | | exact Hne'].
      split; [reflexivity |]. exists [], [].
      split; [reflexivity |]. split; constructor.
Qed.

(** [select] at an expanded state. *)
Lemma select_first_greatest (st : store F) key actions prior n :
  s_valid_moves st !! key = Some actions → actions ≠ [] →
  s_p st !! key = Some prior →
  (∀ a, a ∈ actions → is_Some (getitem prior a)) →
  s_n st !! key = Some n →
  fgtb (of_Z 0) (of_Z n) = false →
  fgtb (of_Z 0) (fadd (of_Z n) EPS) = false →
  (∀ a, is_Some (sa_q st !! (key, a)) → is_Some (sa_n st !! (key, a))) →
  comparable (map (puct_formula st key) actions) →
  ∃ a, select st key = Done a ∧ first_greatest (puct_formula st key) actions a.
Proof.
  intros Hacts Hne Hp Hidx Hn Hsqrt Hsqrt' Hedge Hcmp.
  destruct (select_loop_first_greatest st key (puct_formula st key)
              actions [] None (-1)%Z) as (a & Hloop & Hfirst);
    [| exact Hcmp | reflexivity | exact Hne |].
  { intros a Ha. eapply puct_score_formula; eauto. }
  exists a. split; [| exact Hfirst].
  unfold select. rewrite Hacts. cbn [orelse obind]. rewrite Hloop. reflexivity.
Qed.

(** C5: for any arithmetic, at an expanded state whose scores [>] orders
    (none is NaN or -inf), [select] scores every stored action with the
    PUCT formula (c_puct = 5, the Q term only on an existing edge) and
    returns the action of strictly greatest score, the first one in the
    stored order on ties; [search] continues with that action. *)
Theorem select_puct fuel (st : store F) key actions prior n :
  s_valid_moves st !! key = Some actions → actions ≠ [] →
  s_p st !! key = Some prior →
  (∀ a, a ∈ actions → is_Some (getitem prior a)) →
  s_n st !! key = Some n →
  fgtb (of_Z 0) (of_Z n) = false →
  fgtb (of_Z 0) (fadd (of_Z n) EPS) = false →
  (∀ a, is_Some (sa_q st !! (key, a)) → is_Some (sa_n st !! (key, a))) →
  comparable (map (puct_formula st key) actions) →
  ∃ a, select st key = Done a
    ∧ (∀ a', a' ∈ actions → puct_score st key a' = Done (puct_formula st key a'))
    ∧ first_greatest (puct_formula st key) actions a
    ∧ (is_terminal key (terminal_reward st key) = false →
       search (S fuel) key st =
         obind (next_state key a) (λ next_s,
         obind (search fuel next_s (cache_reward key st)) (λ '(value, st1),
         backup key a value st1))).
Proof.
  intros Hacts Hne Hp Hidx Hn Hsqrt Hsqrt' Hedge Hcmp.
  destruct (select_first_greatest st key actions prior n) as (a & Hsel & Hfirst);
    try assumption.
  exists a. split; [exact Hsel |]. split; [| split].
  - intros a' Ha'. eapply puct_score_formula; eauto.
  - exact Hfirst.
  - intros Hnt. rewrite search_unfold. cbn zeta. rewrite Hnt.
    destruct (cache_reward_frame get_reward st key) as (_ & _ & _ & -> & _).
    rewrite Hp, select_cache_reward, Hsel. reflexivity.
Qed.

End Selection.

(** ** Exact arithmetic: the engine over the reals *)

Section Exact.

Local Open Scope R_scope.

Variable predict : board → list R * R.
Variable get_reward : board → Z → Z.
Variable get_valid_actions_1d : board → Z → list Z.
Variable index_to_pos : Z → Z * Z.

Local Abbreviation search := (search predict get_reward get_valid_actions_1d index_to_pos).
Local Abbreviation search_seq :=
  (search_seq predict get_reward get_valid_actions_1d index_to_pos).
Local Abbreviation playouts :=
  (playouts predict get_reward get_valid_actions_1d index_to_pos).
Local Abbreviation cache_reward := (cache_reward get_reward).
Local Abbreviation terminal_reward := (terminal_reward get_reward).
Local Abbreviation expand := (expand predict get_valid_actions_1d).
Local Abbreviation next_state := (next_state index_to_pos).

Lemma Reqb_true x y : Reqb x y = true ↔ x = y.
Proof. unfold Reqb. destruct (Req_dec_T x y); split; congruence. Qed.

Lemma Reqb_false x y : Reqb x y = false ↔ x ≠ y.
Proof. unfold Reqb. destruct (Req_dec_T x y); split; congruence. Qed.

Lemma Rgtb_true x y : Rgtb x y = true ↔ x > y.
Proof. unfold Rgtb. destruct (Rgt_dec x y); split; congruence. Qed.

Lemma Rgtb_false x y : Rgtb x y = false ↔ x <= y.
Proof. unfold Rgtb. destruct (Rgt_dec x y); split; (congruence || lra). Qed.

(** *** Sums *)

Lemma fold_left_Rplus (l : list R) (a : R) :
  fold_left Rplus l a = a + fold_left Rplus l 0.
Proof.
  revert a. induction l as [| x l IH]; intros a; cbn; [lra |].
  rewrite (IH (a + x)), (IH (0 + x)). lra.
Qed.

Lemma np_sum_cons (x : R) (l : list R) : np_sum (x :: l) = x + np_sum l.
Proof. unfold np_sum. cbn. rewrite fold_left_Rplus. lra. Qed.

Lemma np_sum_scaled (l : list R) (s : R) :
  np_sum (map (λ p, p / s) l) = np_sum l / s.
Proof.
  induction l as [| x l IH]; [unfold np_sum; cbn; lra |].
  cbn [map]. rewrite !np_sum_cons, IH. lra.
Qed.

Lemma np_sum_replicate (n : nat) (c : R) : np_sum (replicate n c) = INR n * c.
Proof.
  induction n as [| n IH]; [unfold np_sum; cbn; lra |].
  cbn [replicate]. rewrite np_sum_cons, IH, S_INR. lra.
Qed.

Lemma np_sum_uniform (n : nat) : n ≠ 0%nat → np_sum (uniform_probs n) = 1.
Proof.
  intros Hn. unfold uniform_probs. rewrite np_sum_replicate. cbn.
  rewrite <- INR_IZR_INZ. field. by apply not_0_INR.
Qed.

(** *** Leaf expansion *)

(** The masked priors of line 67, entry by entry. *)
Lemma masked_probs_Some (probs : list R) (valid_actions : list Z) :
  (225 ≤ length probs)%nat →
  masked_probs probs (mask_of valid_actions)
  = Some ((λ i, if bool_decide (i ∈ valid_actions)
                then default 0 (getitem probs i) else 0) <$> range BOARD_SIZE).
Proof.
  intros Hlen. unfold masked_probs.
  rewrite (mapM_pointwise _
    (λ i, if bool_decide (i ∈ valid_actions) then default 0 (getitem probs i) else 0));
    [reflexivity |].
  apply Forall_forall. intros i Hi%range_elem.
  rewrite mask_of_lookup by exact Hi.
  destruct (getitem_is_Some probs i) as [p Hp]; [unfold BOARD_SIZE in Hi; lia |].
  rewrite Hp. cbn. f_equal. destruct (bool_decide _); lra.
Qed.

(** A term of a sum of numbers that are not negative is at most the sum. *)
Lemma np_sum_nonneg (l : list R) :
  Forall (λ p, 0 <= p) l → 0 <= np_sum l ∧ Forall (λ p, p <= np_sum l) l.
Proof.
  induction l as [| x l IH]; intros Hl.
  - split; [cbn; lra | constructor].
  - apply Forall_cons in Hl as [Hx Hl]. destruct (IH Hl) as [Hsum Hle].
    rewrite np_sum_cons. split; [lra |]. constructor; [lra |].
    eapply Forall_impl; [exact Hle |]. cbn. intros; lra.
Qed.

(** Masking keeps probabilities probabilities. *)
Lemma masked_in_range (probs : list R) (valid_actions : list Z) :
  Forall (λ p, 0 <= p <= 1) probs →
  Forall (λ p, 0 <= p <= 1)
    ((λ i, if bool_decide (i ∈ valid_actions)
           then default 0 (getitem probs i) else 0) <$> range BOARD_SIZE).
Proof.
  intros Hprobs. apply Forall_fmap, Forall_forall. intros i _. cbn.
  destruct (bool_decide _); [| lra].
  unfold getitem. destruct (norm_index (length probs) i) as [k |]; cbn; [| lra].
  destruct (probs !! k) as [p |] eqn:Hp; cbn; [| lra].
  exact (proj1 (Forall_forall _ _) Hprobs p (list_elem_of_lookup_2 _ _ _ Hp)).
Qed.

(** Dividing by the sum makes probabilities of numbers that are not
    negative. *)
Lemma ratio_in_range (l : list R) :
  Forall (λ p, 0 <= p <= 1) l → np_sum l ≠ 0 →
  Forall (λ p, 0 <= p <= 1) (map (λ p, p / np_sum l) l).
Proof.
  intros Hl Hne.
  assert (Forall (λ p, 0 <= p) l) as Hpos
    by (eapply Forall_impl; [exact Hl |]; cbn; intros; lra).
  destruct (np_sum_nonneg l Hpos) as [Hsum Hle].
  assert (0 < np_sum l) as Hs by lra.
  apply Forall_fmap, Forall_forall. intros p Hp. cbn.
  pose proof (proj1 (Forall_forall _ _) Hpos p Hp) as Hp0.
  pose proof (proj1 (Forall_forall _ _) Hle p Hp) as Hp1.
  assert (0 < / np_sum l) as Hi by (by apply Rinv_0_lt_compat).
  unfold Rdiv. split.
  - apply Rmult_le_pos; lra.
  - apply (Rmult_le_compat_r _ _ _ (Rlt_le _ _ Hi)) in Hp1.
    rewrite Rinv_r in Hp1 by lra. exact Hp1.
Qed.

(** What an expansion stores is a vector of probabilities, when the
    evaluator answered with probabilities. *)
Lemma expand_prior_in_range state (st : store R) v st' :
  (225 ≤ length (fst (predict state)))%nat →
  Forall (λ p, 0 <= p <= 1) (fst (predict state)) →
  expand state st = Done (v, st') →
  ∃ prior, s_p st' = <[state := prior]> (s_p st)
    ∧ Forall (λ p, 0 <= p <= 1) prior.
Proof.
  intros Hlen Hrange. unfold expand.
  destruct (predict state) as [probs value]. cbn [fst] in Hlen, Hrange.
  rewrite (masked_probs_Some probs _ Hlen). cbn [orelse obind].
  pose proof (masked_in_range probs (get_valid_actions_1d state valid_actions_distance)
                Hrange) as Hm.
  remember ((λ i, if bool_decide (i ∈ get_valid_actions_1d state valid_actions_distance)
                  then default 0 (getitem probs i) else 0) <$> range BOARD_SIZE)
    as masked eqn:Hmasked.
  assert (length masked = 225%nat) as Hmlen.
  { subst masked. unfold range. rewrite length_fmap, length_seqZ. reflexivity. }
  clear Hmasked. cbn [feqb of_Z real_arith].
  destruct (Reqb (np_sum masked) 0) eqn:Hzero.
  - intros [= <- <-].
    exists (uniform_probs (length masked)). split; [reflexivity |].
    unfold uniform_probs. rewrite Hmlen. apply Forall_replicate.
    change (0 <= 1 / 225 <= 1). lra.
  - apply Reqb_false in Hzero.
    destruct (negb (Reqb (np_sum masked) 1)); intros [= <- <-].
    + exists (map (λ p, p / np_sum masked) masked). split; [reflexivity |].
      by apply ratio_in_range.
    + exists masked. split; [reflexivity | exact Hm].
Qed.


(** *** Selection over the reals *)

(** Every list of reals is ordered by [>]. *)
Lemma comparable_real (scores : list R) : comparable scores.
Proof.
  split; [| split]; cbn [gt_neg_inf fgtb real_arith].
  - reflexivity.
  - intros x y _ _ Hxy%Rgtb_true. apply Rgtb_false. lra.
  - intros x y z _ _ _ Hxz%Rgtb_true Hyz%Rgtb_false. apply Rgtb_true. lra.
Qed.

(** [math.sqrt] gets no negative argument from a visit count. *)
Lemma sqrt_args_real (n : Z) :
  (0 ≤ n)%Z →
  fgtb (of_Z 0) (of_Z (F:=R) n) = false
  ∧ fgtb (of_Z 0) (fadd (of_Z (F:=R) n) EPS) = false.
Proof.
  intros Hn. assert (0 <= IZR n) as HN by (by apply IZR_le).
  cbn [fgtb of_Z fadd EPS real_arith]. split; apply Rgtb_false; lra.
Qed.

(** *** Every playout returns, and what it does to the root *)

Section Totality.

Hypothesis predict_size : ∀ b, (225 ≤ length (fst (predict b)))%nat.
Hypothesis oracle_contract : oracle_ok get_valid_actions_1d index_to_pos.

Local Abbreviation tree_inv := (tree_inv get_reward get_valid_actions_1d).

Lemma tree_inv_init : tree_inv MCTS_init.
Proof.
  split; [| split]; cbn.
  - intros b prior. by rewrite lookup_empty.
  - intros k. rewrite !lookup_empty. split; intros [? [=]].
  - intros b r. by rewrite lookup_empty.
Qed.

Lemma cache_reward_tree_inv state (st : store R) :
  tree_inv st →
  tree_inv (cache_reward state st)
  ∧ terminal_reward st state = get_reward state 1.
Proof.
  intros (Hp & Hq & Hr). unfold cache_reward, terminal_reward.
  destruct (s_r st !! state) as [r |] eqn:Hsr.
  - split; [exact (conj Hp (conj Hq Hr)) | by apply Hr].
  - split; [| reflexivity]. split; [exact Hp |]. split; [exact Hq |]. cbn.
    intros b r [[<- <-] | [_ Hb]]%lookup_insert_Some; [reflexivity | by apply Hr].
Qed.

Lemma expand_total state (st : store R) :
  ∃ v st', expand state st = Done (v, st').
Proof.
  unfold expand. pose proof (predict_size state) as Hlen.
  destruct (predict state) as [probs value]. cbn [fst] in Hlen.
  rewrite (masked_probs_Some probs _ Hlen). cbn [orelse obind].
  destruct (feqb _ _); [| destruct (negb _)]; by eexists _, _.
Qed.

Lemma backup_total state a value (st1 : store R) :
  is_Some (s_n st1 !! state) →
  (is_Some (sa_q st1 !! (state, a)) → is_Some (sa_n st1 !! (state, a))) →
  ∃ v st2, backup state a value st1 = Done (v, st2).
Proof.
  intros [n Hn] Hedge. unfold backup.
  destruct (sa_q st1 !! (state, a)) as [q |].
  - destruct Hedge as [na ->]; [by eexists |]. cbn. rewrite Hn. by eexists _, _.
  - cbn. rewrite Hn. by eexists _, _.
Qed.

Lemma select_in_actions (st : store R) key actions prior n :
  s_valid_moves st !! key = Some actions → actions ≠ [] →
  s_p st !! key = Some prior →
  (∀ a, a ∈ actions → is_Some (getitem prior a)) →
  s_n st !! key = Some n → (0 ≤ n)%Z →
  (∀ a, is_Some (sa_q st !! (key, a)) → is_Some (sa_n st !! (key, a))) →
  ∃ a, select st key = Done a ∧ a ∈ actions.
Proof.
  intros Hacts Hne Hp Hidx Hn Hn0 Hedge.
  destruct (sqrt_args_real n Hn0) as [Hsqrt Hsqrt'].
  destruct (select_first_greatest st key actions prior n)
    as (a & Hsel & before & after & Heq & _); try assumption.
  { apply comparable_real. }
  exists a. split; [exact Hsel |].
  rewrite Heq. apply elem_of_app. right. left.
Qed.

(** The frame of a call on [b]: boards with fewer stones keep their priors
    and their edges. *)
Lemma search_total fuel : ∀ b (st : store R),
  shape_ok b → (0 < count_nonzero b)%Z →
  (BOARD_SIZE - count_nonzero b < Z.of_nat fuel)%Z →
  tree_inv st →
  ∃ v st',
    search fuel b st = Done (v, st')
    ∧ tree_inv st'
    ∧ (∀ k, (count_nonzero k < count_nonzero b)%Z →
         s_p st' !! k = s_p st !! k
         ∧ ∀ a, sa_n st' !! (k, a) = sa_n st !! (k, a))
    ∧ (is_terminal b (get_reward b 1) = false →
         is_Some (s_p st' !! b)
         ∧ py_sum (counts st' b)
           = (py_sum (counts st b)
              + match s_p st !! b with Some _ => 1 | None => 0 end)%Z).
Proof.
  induction fuel as [| fuel IH]; intros b st Hshape Hstone Hfuel Hinv.
  { pose proof (count_nonzero_le b Hshape). lia. }
  rewrite search_unfold. cbn zeta.
  destruct (cache_reward_tree_inv b st Hinv) as [Hinv0 ->].
  destruct (cache_reward_frame get_reward st b) as (_ & Hsan0 & _ & Hsp0 & _).
  destruct (is_terminal b (get_reward b 1)) eqn:Hterm.
  { eexists _, _. split; [reflexivity |]. split; [exact Hinv0 |].
    split; [| discriminate]. intros k _. by rewrite Hsp0, Hsan0. }
  assert (count_nonzero b < BOARD_SIZE)%Z as Hroom.
  { pose proof (count_nonzero_le b Hshape).
    unfold is_terminal in Hterm. apply orb_false_iff in Hterm as [_ Hfull].
    apply Z.eqb_neq in Hfull. lia. }
  destruct Hinv0 as (Hp0 & Hq0 & Hr0).
  destruct (s_p (cache_reward b st) !! b) as [prior |] eqn:Hprior.
  - (* an expanded state: select, recurse, back up *)
    destruct (Hp0 b prior Hprior) as (Hlen & Hmoves & n & Hn & Hn0).
    destruct (oracle_contract b Hshape) as [Hne Hacts]; [lia |].
    destruct (select_in_actions _ b _ prior n Hmoves Hne Hprior) as (a & -> & Ha);
      [| exact Hn | exact Hn0 | intros a'; apply Hq0 |].
    { intros a' [Hrange _]%Hacts. apply getitem_is_Some.
      unfold BOARD_SIZE in Hrange. lia. }
    destruct (Hacts a Ha) as [Harange Hcell]. cbn [obind].
    destruct (place_on_empty b _ _ Hshape Hcell) as (b' & Hplace & Hshape' & Hcount').
    unfold next_state. rewrite Hplace. cbn [orelse obind].
    destruct (IH b' (cache_reward b st) Hshape') as (value & st1 & -> & Hinv1 & Hframe1 & _);
      [lia | lia | exact (conj Hp0 (conj Hq0 Hr0)) |].
    cbn [obind].
    destruct (Hframe1 b) as [Hsp1 Hsan1]; [lia |].
    destruct Hinv1 as (Hp1 & Hq1 & Hr1).
    rewrite Hprior in Hsp1.
    destruct (Hp1 b prior Hsp1) as (_ & Hmoves1 & n1 & Hn1 & Hn10).
    destruct (backup_total b a value st1) as (v & st2 & Hbackup);
      [by eexists | apply Hq1 |].
    rewrite Hbackup.
    apply backup_Done in Hbackup
      as (_ & Hsp2 & Hsr2 & Hmoves2 & _ & (n1' & Hn1' & Hsn2) & Hedges).
    rewrite Hn1 in Hn1'. injection Hn1' as <-.
    assert (∃ m, sa_q st2 = <[(b, a) := m]> (sa_q st1)
                 ∧ sa_n st2 = <[(b, a) := (default 0 (sa_n st1 !! (b, a)) + 1)%Z]> (sa_n st1))
      as (m & Hsaq2 & Hsan2).
    { destruct Hedges as [(q & na & Hq & Hna & Hsaq2 & Hsan2) | (Hq & Hsaq2 & Hsan2)].
      - eexists. split; [exact Hsaq2 |]. by rewrite Hna.
      - eexists. split; [exact Hsaq2 |].
        destruct (sa_n st1 !! (b, a)) as [na |] eqn:Hna; [| exact Hsan2].
        destruct (proj2 (Hq1 (b, a))) as [q' Hq']; [by eexists | congruence]. }
    eexists _, _. split; [reflexivity |]. split; [| split].
    + split; [| split].
      * intros b0 prior0. rewrite Hsp2, Hmoves2, Hsn2. intros Hb0.
        destruct (Hp1 b0 prior0 Hb0) as (Hlen0 & Hmoves0 & n0 & Hn0' & Hn00).
        split; [exact Hlen0 |]. split; [exact Hmoves0 |].
        destruct (decide (b = b0)) as [<- | Hne0].
        -- exists (n1 + 1)%Z. rewrite lookup_insert_eq. split; [reflexivity | lia].
        -- exists n0. by rewrite lookup_insert_ne.
      * intros k. rewrite Hsaq2, Hsan2, !lookup_insert_is_Some. by rewrite Hq1.
      * rewrite Hsr2. exact Hr1.
    + intros k Hk. destruct (Hframe1 k) as [Hspk Hsank]; [lia |].
      rewrite Hsp2, Hspk, Hsp0. split; [reflexivity |].
      intros a'. rewrite Hsan2, lookup_insert_ne, Hsank, Hsan0; [reflexivity |].
      intros [= -> _]. lia.
    + intros _. rewrite Hsp2, Hsp1, <- Hsp0, Hprior. split; [by eexists |].
      rewrite (counts_bump st1 st2 b a _ Harange Hsan2).
      rewrite (counts_same (cache_reward b st) st1 b) by (intros a'; by rewrite Hsan1).
      rewrite (counts_same st (cache_reward b st) b) by (intros a'; by rewrite Hsan0).
      lia.
  - (* a leaf: expand *)
    destruct (expand_total b (cache_reward b st)) as (v & st' & Hexp).
    rewrite Hexp.
    apply expand_Done in Hexp
      as (_ & Hsaq' & Hsan' & Hsr' & Hsn' & Hmoves' & prior & Hsp' & Hlen).
    eexists _, _. split; [reflexivity |]. split; [| split].
    + split; [| split].
      * intros b0 prior0. rewrite Hsp', Hmoves', Hsn'.
        destruct (decide (b = b0)) as [<- | Hne0].
        -- rewrite !lookup_insert_eq. intros [= <-].
           split; [exact Hlen |]. split; [reflexivity |]. by exists 0%Z.
        -- rewrite !lookup_insert_ne by exact Hne0. apply Hp0.
      * intros k. rewrite Hsaq', Hsan'. apply Hq0.
      * rewrite Hsr'. exact Hr0.
    + intros k Hk. rewrite Hsp', Hsan', Hsan0, <- Hsp0.
      rewrite lookup_insert_ne; [done |]. intros ->. lia.
    + intros _. rewrite Hsp', lookup_insert_eq. split; [by eexists |].
      rewrite <- Hsp0, Hprior.
      rewrite (counts_same st st' b) by (intros a'; by rewrite Hsan', Hsan0). lia.
Qed.

Section Root.

Variable root : board.
Variable fuel : nat.
Hypothesis root_shape : shape_ok root.
Hypothesis root_stone : (0 < count_nonzero root)%Z.
Hypothesis root_open : is_terminal root (get_reward root 1) = false.
Hypothesis enough_fuel : (226 ≤ fuel)%nat.

(** Once the root is expanded, each playout adds one visit to one of its
    edges. *)
Lemma playouts_expanded n : ∀ st : store R,
  tree_inv st → is_Some (s_p st !! root) →
  ∃ st', playouts fuel n root st = Done st'
    ∧ py_sum (counts st' root) = (py_sum (counts st root) + Z.of_nat n)%Z.
Proof.
  induction n as [| n IH]; intros st Hinv Hexp.
  - exists st. split; [reflexivity | lia].
  - cbn [playouts].
    destruct (search_total fuel root st root_shape root_stone)
      as (v & st1 & -> & Hinv1 & _ & Heffect); [unfold BOARD_SIZE; lia | exact Hinv |].
    destruct (Heffect root_open) as [Hexp1 Hsum1]. cbn [obind].
    destruct (IH st1 Hinv1 Hexp1) as (st' & -> & Hsum').
    exists st'. split; [reflexivity |].
    destruct Hexp as [prior Hprior]. rewrite Hprior in Hsum1. lia.
Qed.

Lemma first_playout :
  ∃ v st1, search fuel root MCTS_init = Done (v, st1)
    ∧ tree_inv st1 ∧ is_Some (s_p st1 !! root)
    ∧ py_sum (counts st1 root) = 0%Z.
Proof.
  destruct (search_total fuel root MCTS_init root_shape root_stone)
    as (v & st1 & Hrun & Hinv1 & _ & Heffect);
    [unfold BOARD_SIZE; lia | exact tree_inv_init |].
  destruct (Heffect root_open) as [Hexp1 Hsum1].
  exists v, st1. split; [exact Hrun |]. split; [exact Hinv1 |].
  split; [exact Hexp1 |].
  rewrite Hsum1, counts_init. cbn [s_p MCTS_init]. by rewrite lookup_empty.
Qed.

Lemma playouts_return n :
  ∃ st, playouts fuel n root MCTS_init = Done st.
Proof.
  destruct n as [| n]; [by eexists |]. cbn [playouts].
  destruct first_playout as (v & st1 & -> & Hinv1 & Hexp1 & _). cbn [obind].
  destruct (playouts_expanded n st1 Hinv1 Hexp1) as (st & -> & _). by exists st.
Qed.

(** The first playout expands the root and touches no edge, every later
    one adds one visit to one root edge. *)
Lemma playouts_root_visits n :
  ∃ st, playouts fuel (S n) root MCTS_init = Done st
    ∧ py_sum (counts st root) = Z.of_nat n.
Proof.
  cbn [playouts].
  destruct first_playout as (v & st1 & -> & Hinv1 & Hexp1 & Hsum1). cbn [obind].
  destruct (playouts_expanded n st1 Hinv1 Hexp1) as (st & -> & Hsum).
  exists st. split; [reflexivity |].
  rewrite Hsum, Hsum1. lia.
Qed.

End Root.

End Totality.

(** *** Bounded mean values *)

Section Bounded.

Hypothesis value_bounded : ∀ b, -1 <= snd (predict b) <= 1.
Hypothesis reward_bounded : ∀ b, (-1 ≤ get_reward b 1 ≤ 1)%Z.

Lemma IZR_bounded (r : Z) : (-1 ≤ r ≤ 1)%Z → -1 <= IZR (- r) <= 1.
Proof. intros [Hl Hu]. split; apply IZR_le; lia. Qed.

(** The running mean of line 110 is a convex combination. *)
Lemma running_mean_bounded (n : Z) (q v : R) :
  (0 ≤ n)%Z → -1 <= q <= 1 → -1 <= v <= 1 →
  -1 <= (IZR n * q + v) / IZR (n + 1) <= 1.
Proof.
  intros Hn Hq Hv. rewrite plus_IZR.
  assert (0 <= IZR n) as HN by (by apply IZR_le).
  assert (0 < / (IZR n + 1)) as Hi by (apply Rinv_0_lt_compat; lra).
  assert ((IZR n + 1) * / (IZR n + 1) = 1) as Hone by (apply Rinv_r; lra).
  assert (IZR n * q + v <= IZR n + 1) as Hup by nra.
  assert (- (IZR n + 1) <= IZR n * q + v) as Hlo by nra.
  unfold Rdiv. split.
  - apply (Rmult_le_compat_r _ _ _ (Rlt_le _ _ Hi)) in Hlo. lra.
  - apply (Rmult_le_compat_r _ _ _ (Rlt_le _ _ Hi)) in Hup. lra.
Qed.

Lemma cache_reward_bounded state (st : store R) :
  bounded_inv st →
  bounded_inv (cache_reward state st)
  ∧ (-1 ≤ terminal_reward st state ≤ 1)%Z.
Proof.
  intros (Hq & Hn & Hr). unfold cache_reward, terminal_reward.
  destruct (s_r st !! state) as [r |] eqn:Hsr.
  - split; [exact (conj Hq (conj Hn Hr)) | by eapply Hr].
  - split; [| apply reward_bounded].
    split; [exact Hq |]. split; [exact Hn |]. cbn.
    intros b r [[<- <-] | [_ Hb]]%lookup_insert_Some;
      [apply reward_bounded | by eapply Hr].
Qed.

Lemma search_bounded fuel : ∀ state (st : store R) v st',
  bounded_inv st → search fuel state st = Done (v, st') →
  bounded_inv st' ∧ -1 <= v <= 1.
Proof.
  induction fuel as [| fuel IH]; intros state st v st' Hinv Hrun; [discriminate |].
  rewrite search_unfold in Hrun. cbn zeta in Hrun.
  destruct (cache_reward_bounded state st Hinv) as [Hinv0 Hr].
  destruct (is_terminal _ _).
  { injection Hrun as <- <-. split; [exact Hinv0 | by apply IZR_bounded]. }
  destruct (s_p _ !! state).
  - destruct (select _ state) as [a |]; [| discriminate]. cbn [obind] in Hrun.
    destruct (next_state state a) as [next_s |]; [| discriminate]. cbn [obind] in Hrun.
    destruct (search fuel next_s _) as [[value st1] |] eqn:Hrec; [| discriminate].
    cbn [obind] in Hrun.
    destruct (IH _ _ _ _ Hinv0 Hrec) as [(Hq1 & Hn1 & Hr1) Hvalue].
    apply backup_Done in Hrun
      as (-> & _ & Hsr & _ & _ & _ & [(q & na & Hq & Hna & Hq2 & Hn2) | (_ & Hq2 & Hn2)]).
    + split; [| cbn; lra]. split; [| split].
      * intros k q'. rewrite Hq2.
        intros [[<- <-] | [_ Hk]]%lookup_insert_Some; [| by eapply Hq1].
        apply running_mean_bounded; [by eapply Hn1 | by eapply Hq1 | exact Hvalue].
      * intros k n'. rewrite Hn2.
        intros [[<- <-] | [_ Hk]]%lookup_insert_Some; [| by eapply Hn1].
        specialize (Hn1 _ _ Hna). lia.
      * rewrite Hsr. exact Hr1.
    + split; [| cbn; lra]. split; [| split].
      * intros k q'. rewrite Hq2.
        intros [[<- <-] | [_ Hk]]%lookup_insert_Some; [exact Hvalue | by eapply Hq1].
      * intros k n'. rewrite Hn2.
        intros [[<- <-] | [_ Hk]]%lookup_insert_Some; [lia | by eapply Hn1].
      * rewrite Hsr. exact Hr1.
  - apply expand_Done in Hrun as (-> & Hq & Hn & Hsr & _).
    destruct Hinv0 as (Hq0 & Hn0 & Hr0).
    split; [| specialize (value_bounded state); cbn; lra].
    split; [| split]; [intros k q' | intros k n' | intros b r];
      rewrite ?Hq, ?Hn, ?Hsr; eauto.
Qed.

Lemma search_seq_bounded fuel states : ∀ (st : store R) st',
  bounded_inv st → search_seq fuel states st = Done st' → bounded_inv st'.
Proof.
  induction states as [| state states IH]; intros st st' Hinv Hrun.
  - by injection Hrun as <-.
  - cbn [search_seq] in Hrun.
    destruct (search fuel state st) as [[v st1] |] eqn:Hs; [| discriminate].
    cbn [obind] in Hrun.
    apply (IH st1); [| exact Hrun]. by eapply search_bounded.
Qed.

(** C7: with evaluator values in [-1, 1] and rewards in {-1, 0, 1}, after
    any sequence of [search] calls on a new search object that returned,
    every edge record holds a mean value in [-1, 1]. *)
Theorem mean_value_bounded fuel (states : list board) :
  edges_bounded_after (search_seq fuel states MCTS_init).
Proof.
  unfold edges_bounded_after.
  destruct (search_seq fuel states MCTS_init) as [st |] eqn:Hrun; [| exact I].
  eapply (search_seq_bounded fuel states MCTS_init st); [| exact Hrun].
  split; [| split]; intros ? ?; cbn; rewrite lookup_empty; discriminate.
Qed.

End Bounded.

(** *** The numbers stay in range *)

Section InRange.

Hypothesis evaluator_contract : evaluator_ok predict.
Hypothesis reward_bounded : ∀ b, (-1 ≤ get_reward b 1 ≤ 1)%Z.

Lemma in_range_init : priors_bounded MCTS_init ∧ bounded_inv MCTS_init.
Proof.
  split; [| split; [| split]]; intros ? ?; cbn; rewrite lookup_empty; discriminate.
Qed.

Lemma search_priors_bounded fuel : ∀ state (st : store R) v st',
  priors_bounded st → search fuel state st = Done (v, st') → priors_bounded st'.
Proof.
  induction fuel as [| fuel IH]; intros state st v st' Hinv Hrun; [discriminate |].
  rewrite search_unfold in Hrun. cbn zeta in Hrun.
  destruct (cache_reward_frame get_reward st state) as (_ & _ & _ & Hsp0 & _).
  assert (priors_bounded (cache_reward state st)) as Hinv0
    by (unfold priors_bounded; by rewrite Hsp0).
  destruct (is_terminal _ _).
  { by injection Hrun as <- <-. }
  destruct (s_p _ !! state).
  - destruct (select _ state) as [a |]; [| discriminate]. cbn [obind] in Hrun.
    destruct (next_state state a) as [next_s |]; [| discriminate]. cbn [obind] in Hrun.
    destruct (search fuel next_s _) as [[value st1] |] eqn:Hrec; [| discriminate].
    cbn [obind] in Hrun.
    pose proof (IH _ _ _ _ Hinv0 Hrec) as Hinv1.
    apply backup_Done in Hrun as (_ & Hsp2 & _).
    unfold priors_bounded. by rewrite Hsp2.
  - destruct (evaluator_contract state) as (Hlen & Hrange & _).
    apply (expand_prior_in_range _ _ _ _ Hlen Hrange) in Hrun
      as (prior & Hsp' & Hprior).
    intros b prior'. rewrite Hsp'.
    intros [[<- <-] | [_ Hb]]%lookup_insert_Some; [exact Hprior | by eapply Hinv0].
Qed.

Lemma search_seq_in_range fuel states : ∀ (st : store R) st',
  priors_bounded st → bounded_inv st →
  search_seq fuel states st = Done st' →
  priors_bounded st' ∧ bounded_inv st'.
Proof.
  induction states as [| state states IH]; intros st st' Hp Hb Hrun.
  - by injection Hrun as <-.
  - cbn [search_seq] in Hrun.
    destruct (search fuel state st) as [[v st1] |] eqn:Hs; [| discriminate].
    cbn [obind] in Hrun.
    apply (IH st1); [| | exact Hrun].
    + by eapply search_priors_bounded.
    + eapply (search_bounded (λ b, proj2 (proj2 (evaluator_contract b))) reward_bounded);
        [exact Hb | exact Hs].
Qed.

(** The stores a sequence of calls on a new search object can reach. *)
Lemma reached_in_range fuel states (st : store R) :
  search_seq fuel states MCTS_init = Done st →
  priors_bounded st ∧ edges_bounded st.
Proof.
  intros Hrun. destruct in_range_init as [Hp Hb].
  destruct (search_seq_in_range fuel states MCTS_init st Hp Hb Hrun) as [Hp' Hb'].
  split; [exact Hp' | exact (proj1 Hb')].
Qed.

Hypothesis oracle_contract : oracle_ok get_valid_actions_1d index_to_pos.

(** C1 (amended): from a 15 by 15 root that is not terminal and holds a
    stone, on a new search object, with an evaluator that answers with at
    least 225 probabilities and a value in [-1, 1], rewards in {-1, 0, 1}
    and an oracle that keeps its contract, [n + 1] playouts return and
    leave the root edges with [n] visits in all: the first playout expands
    the root and touches no edge, every later one adds one visit to one
    root edge.  Every stored prior stays in [0, 1] and every mean value in
    [-1, 1], so no score is NaN or infinite. *)
Theorem root_visits_after_playouts root fuel n :
  shape_ok root → (0 < count_nonzero root)%Z →
  is_terminal root (get_reward root 1) = false →
  (226 ≤ fuel)%nat →
  ∃ st, playouts fuel (S n) root MCTS_init = Done st
    ∧ py_sum (counts st root) = Z.of_nat n
    ∧ priors_bounded st ∧ edges_bounded st.
Proof.
  intros Hshape Hstone Hopen Hfuel.
  destruct (playouts_root_visits (λ b, proj1 (evaluator_contract b)) oracle_contract
              root fuel Hshape Hstone Hopen Hfuel n) as (st & Hrun & Hsum).
  exists st. split; [exact Hrun |]. split; [exact Hsum |].
  apply (reached_in_range fuel (replicate (S n) root)).
  rewrite <- playouts_search_seq. exact Hrun.
Qed.

End InRange.

End Exact.

(** ** The engine run on binary64 floats *)

Lemma search_terminal_witness :
  ∃ st', demo_search 1 lost_board MCTS_init
         = Done (of_Z (- terminal_reward (F:=float) Standin.get_reward MCTS_init lost_board), st')
    ∧ s_r st' !! lost_board = Some (-1)
    ∧ s_p st' = ∅ ∧ sa_q st' = ∅ ∧ sa_n st' = ∅.
Proof.
  destruct (search_terminal (F:=float) random_predict Standin.get_reward
              Standin.get_valid_actions_1d Standin.index_to_pos 0 lost_board MCTS_init)
    as (st' & Hs & Hr & Hp & _ & Hq & Hn & _).
  - left. vm_compute. discriminate.
  - exists st'. split; [exact Hs |]. split; [exact Hr |].
    split; [exact Hp |]. split; [exact Hq | exact Hn].
Defined.

Lemma search_backup_witness :
  demo_search 2 two_stones expanded_root =
    Done (fopp (fst demo_child_result),
          mkStore
            (<[(two_stones, 96) := fst demo_child_result]> (sa_q (snd demo_child_result)))
            (<[(two_stones, 96) := 1]> (sa_n (snd demo_child_result)))
            (<[two_stones := 0 + 1]> (s_n (snd demo_child_result)))
            (s_p (snd demo_child_result)) (s_r (snd demo_child_result))
            (s_valid_moves (snd demo_child_result)) (events (snd demo_child_result))).
Proof.
  refine (proj2 (search_backup (F:=float) random_predict Standin.get_reward
                   Standin.get_valid_actions_1d Standin.index_to_pos
                   1 two_stones expanded_root 96 demo_child
                   (fst demo_child_result) (snd demo_child_result) 0
                   _ _ _ _ _ _) _).
  - vm_compute. reflexivity.
  - exists demo_priors. vm_compute. reflexivity.
  - vm_compute. reflexivity.
  - apply (done_val_eq [] (next_state Standin.index_to_pos two_stones 96)).
    vm_compute. reflexivity.
  - apply (done_pair_eq (of_Z (F:=float) 0, MCTS_init)
             (demo_search 1 demo_child
                (cache_reward Standin.get_reward two_stones expanded_root))).
    vm_compute. reflexivity.
  - vm_compute. reflexivity.
  - vm_compute. reflexivity.
Defined.

Lemma get_probs_deterministic_witness :
  fst (demo_distribution 4) = fst (demo_distribution 300)
  ∧ snd (demo_distribution 4) = snd (demo_distribution 300).
Proof.
  apply (get_probs_deterministic (F:=float) random_predict random_predict
           Standin.get_reward Standin.get_reward
           Standin.get_valid_actions_1d Standin.get_valid_actions_1d
           Standin.index_to_pos Standin.index_to_pos
           (λ _, eq_refl) (λ _ _, eq_refl) (λ _ _, eq_refl) (λ _, eq_refl)
           4%nat 300%nat 3%nat two_stones).
  - apply (done_pair_eq ([], MCTS_init) (demo_get_probs 4 3 two_stones MCTS_init)).
    vm_compute. reflexivity.
  - apply (done_pair_eq ([], MCTS_init) (demo_get_probs 300 3 two_stones MCTS_init)).
    vm_compute. reflexivity.
Defined.

(** ** The stand-in collaborators keep their contract *)

Lemma filter_short_exists {A} (P : A → Prop) `{!∀ x, Decision (P x)} (l : list A) :
  (length (filter P l) < length l)%nat → ∃ x, x ∈ l ∧ ¬ P x.
Proof.
  induction l as [| x l IH]; cbn [length]; [lia |].
  rewrite filter_cons. destruct (decide (P x)) as [HP | HnP].
  - cbn [length]. intros Hlt. destruct IH as (y & Hy & HPy); [lia |].
    exists y. split; [by right | exact HPy].
  - intros _. exists x. split; [left | exact HnP].
Qed.

(** A position in the flattened board is a row and a column. *)
Lemma concat_lookup_row_col (w : nat) (b : board) : ∀ i x,
  Forall (λ row, length row = w) b → concat b !! i = Some x →
  ∃ r c row, (c < w)%nat ∧ i = (r * w + c)%nat ∧ b !! r = Some row ∧ row !! c = Some x.
Proof.
  induction b as [| row b IH]; intros i x Hrows Hi; [discriminate |].
  apply Forall_cons in Hrows as [Hrow Hrows]. cbn [concat] in Hi.
  destruct (decide (i < length row)%nat) as [Hlt | Hge].
  - rewrite lookup_app_l in Hi by exact Hlt.
    exists 0%nat, i, row.
    split; [lia |]. split; [cbn; lia |]. split; [reflexivity | exact Hi].
  - rewrite lookup_app_r in Hi by lia.
    destruct (IH _ _ Hrows Hi) as (r & c & row' & Hc & Heq & Hr & Hx).
    exists (S r), c, row'.
    split; [exact Hc |]. split; [cbn; lia |]. split; [exact Hr | exact Hx].
Qed.

Lemma index_to_pos_row_col (r c : nat) :
  (c < 15)%nat →
  Standin.index_to_pos (Z.of_nat (r * 15 + c)) = (Z.of_nat r, Z.of_nat c).
Proof.
  intros Hc. unfold Standin.index_to_pos, BOARD_WIDTH.
  replace (Z.of_nat (r * 15 + c)) with (Z.of_nat r * 15 + Z.of_nat c) by lia.
  f_equal.
  - rewrite Z.div_add_l by lia. rewrite Z.div_small by lia. lia.
  - rewrite Z.add_comm, Z.mod_add by lia. apply Z.mod_small. lia.
Qed.

Lemma empty_cells_ok : oracle_ok Standin.empty_cells Standin.index_to_pos.
Proof.
  intros b [Hlen Hrows] [_ Hroom]. split.
  - pose proof (shape_ok_concat b (conj Hlen Hrows)) as Hflat.
    destruct (filter_short_exists (λ n, n ≠ 0) (concat b)) as (x & Hx & Hzero).
    { unfold count_nonzero, BOARD_SIZE in Hroom. lia. }
    assert (x = 0) as -> by (destruct (decide (x = 0)); [done | contradiction]).
    apply list_elem_of_lookup_1 in Hx as [i Hi].
    destruct (concat_lookup_row_col 15 b i 0 Hrows Hi) as (r & c & row & Hc & -> & Hr & Hcell).
    pose proof (lookup_lt_Some _ _ _ Hi) as Hi225. rewrite Hflat in Hi225.
    pose proof (lookup_lt_Some _ _ _ Hr) as Hr15.
    pose proof (lookup_lt_Some _ _ _ Hcell) as Hc15.
    intros Hnil.
    assert (Z.of_nat (r * 15 + c) ∈ Standin.empty_cells b 1) as Hin;
      [| rewrite Hnil in Hin; by apply elem_of_nil in Hin].
    unfold Standin.empty_cells. apply list_elem_of_filter. split.
    + rewrite index_to_pos_row_col by exact Hc. cbn [fst snd].
      unfold getitem2. rewrite getitem_nonneg by lia.
      rewrite Nat2Z.id, Hr. cbn. rewrite getitem_nonneg by lia.
      by rewrite Nat2Z.id.
    + apply range_elem. unfold BOARD_SIZE. lia.
  - intros a [Hcell Ha%range_elem]%list_elem_of_filter. split; [exact Ha | exact Hcell].
Qed.

Lemma two_stones_shape_ok : shape_ok two_stones.
Proof. split; [reflexivity | vm_compute; repeat constructor]. Defined.

(** ** The engine run on exact arithmetic *)

Lemma standin_reward_bounded (b : board) : -1 ≤ Standin.get_reward b 1 ≤ 1.
Proof.
  unfold Standin.get_reward.
  destruct (Standin.has_five b 1); [lia |].
  destruct (Standin.has_five b (3 - 1)); lia.
Defined.

Lemma random_predict_size (b : board) :
  (225 ≤ length (fst (random_predict (F:=R) b)))%nat.
Proof. cbn [random_predict fst]. rewrite length_replicate. lia. Defined.

Lemma random_predict_bounded (b : board) :
  (-1 <= snd (random_predict (F:=R) b) <= 1)%R.
Proof. cbn. lra. Defined.

(** C1, as the spec states it, fails: from [two_stones] one playout
    leaves no visit on the root edges, and three playouts leave two. *)
Lemma root_visits_not_playout_count :
  is_terminal two_stones (Standin.get_reward two_stones 1) = false
  ∧ is_done (playouts (F:=float) random_predict Standin.get_reward
               Standin.get_valid_actions_1d Standin.index_to_pos
               300 1 two_stones MCTS_init) = true
  ∧ py_sum (counts (done_val MCTS_init
                      (playouts (F:=float) random_predict Standin.get_reward
                         Standin.get_valid_actions_1d Standin.index_to_pos
                         300 1 two_stones MCTS_init)) two_stones) ≠ 1
  ∧ is_done (playouts (F:=float) random_predict Standin.get_reward
               Standin.get_valid_actions_1d Standin.index_to_pos
               300 3 two_stones MCTS_init) = true
  ∧ py_sum (counts (done_val MCTS_init
                      (playouts (F:=float) random_predict Standin.get_reward
                         Standin.get_valid_actions_1d Standin.index_to_pos
                         300 3 two_stones MCTS_init)) two_stones) ≠ 3.
Proof.
  split; [vm_compute; reflexivity |].
  split; [vm_compute; reflexivity |].
  split; [vm_compute; discriminate |].
  split; [vm_compute; reflexivity |].
  vm_compute. discriminate.
Qed.

Lemma random_predict_ok : evaluator_ok (random_predict (F:=R)).
Proof.
  intros b. split; [apply random_predict_size |].
  split; [| apply random_predict_bounded].
  cbn [random_predict fst]. apply Forall_replicate.
  change (0 <= 1 / 225 <= 1)%R. lra.
Qed.

Lemma root_visits_after_playouts_witness :
  ∃ st, playouts (F:=R) random_predict Standin.get_reward
          Standin.empty_cells Standin.index_to_pos 300 (S 3) two_stones MCTS_init
        = Done st
    ∧ py_sum (counts st two_stones) = Z.of_nat 3
    ∧ priors_bounded st ∧ edges_bounded st.
Proof.
  apply (root_visits_after_playouts random_predict Standin.get_reward
           Standin.empty_cells Standin.index_to_pos
           random_predict_ok standin_reward_bounded empty_cells_ok
           two_stones 300%nat 3%nat two_stones_shape_ok).
  - vm_compute. reflexivity.
  - vm_compute. reflexivity.
  - lia.
Defined.




Lemma mean_value_bounded_witness :
  ∃ st, search_seq (F:=R) random_predict Standin.get_reward
          Standin.empty_cells Standin.index_to_pos
          300 (replicate 3 two_stones) MCTS_init = Done st
    ∧ edges_bounded st.
Proof.
  destruct (playouts_return random_predict Standin.get_reward
              Standin.empty_cells Standin.index_to_pos
              random_predict_size empty_cells_ok two_stones 300%nat
              two_stones_shape_ok) with (n := 3%nat) as [st Hst].
  - vm_compute. reflexivity.
  - vm_compute. reflexivity.
  - lia.
  - rewrite playouts_search_seq in Hst.
    exists st. split; [exact Hst |].
    pose proof (mean_value_bounded random_predict Standin.get_reward
                  Standin.empty_cells Standin.index_to_pos
                  random_predict_bounded standin_reward_bounded
                  300%nat (replicate 3 two_stones)) as Hbounded.
    rewrite Hst in Hbounded. exact Hbounded.
Defined.

(** * More of the engine *)

(** ** What [search] never undoes *)

Section Growth.

Context {F : Type} `{Arith F}.
Variable predict : board → list F * F.
Variable get_reward : board → Z → Z.
Variable get_valid_actions_1d : board → Z → list Z.
Variable index_to_pos : Z → Z * Z.

Local Abbreviation search := (search predict get_reward get_valid_actions_1d index_to_pos).
Local Abbreviation playouts :=
  (playouts predict get_reward get_valid_actions_1d index_to_pos).
Local Abbreviation get_probs :=
  (get_probs predict get_reward get_valid_actions_1d index_to_pos).
Local Abbreviation cache_reward := (cache_reward get_reward).
Local Abbreviation terminal_reward := (terminal_reward get_reward).
Local Abbreviation expand := (expand predict get_valid_actions_1d).

Lemma cache_reward_keeps state (st : store F) k r :
  s_r st !! k = Some r → s_r (cache_reward state st) !! k = Some r.
Proof.
  intros Hk. unfold cache_reward.
  destruct (s_r st !! state) eqn:Hs; [exact Hk |]. cbn.
  rewrite lookup_insert_ne; [exact Hk | congruence].
Qed.

(** X1: the prior vector and the action list of an expanded state, and a
    cached reward, are written once: a call of [search] that returns
    leaves each of them as it found it. *)
Theorem search_write_once fuel : ∀ state (st : store F) v st',
  search fuel state st = Done (v, st') →
  (∀ k r, s_r st !! k = Some r → s_r st' !! k = Some r)
  ∧ (∀ k prior, s_p st !! k = Some prior →
       s_p st' !! k = Some prior
       ∧ s_valid_moves st' !! k = s_valid_moves st !! k).
Proof.
  induction fuel as [| fuel IH]; intros state st v st' Hrun; [discriminate |].
  rewrite search_unfold in Hrun. cbn zeta in Hrun.
  destruct (cache_reward_frame get_reward st state) as (_ & _ & _ & Hsp0 & Hmoves0 & _).
  destruct (is_terminal _ _).
  { injection Hrun as <- <-. split.
    - intros k r. apply cache_reward_keeps.
    - intros k prior Hk. by rewrite Hsp0, Hmoves0. }
  destruct (s_p (cache_reward state st) !! state) as [prior0 |] eqn:Hprior.
  - destruct (select _ state) as [a |]; [| discriminate]. cbn [obind] in Hrun.
    destruct (next_state _ state a) as [next_s |]; [| discriminate].
    cbn [obind] in Hrun.
    destruct (search fuel next_s _) as [[value st1] |] eqn:Hrec; [| discriminate].
    cbn [obind] in Hrun.
    destruct (IH _ _ _ _ Hrec) as [Hr1 Hp1].
    apply backup_Done in Hrun as (_ & Hsp2 & Hsr2 & Hmoves2 & _).
    split.
    + intros k r Hk. rewrite Hsr2. apply Hr1. by apply cache_reward_keeps.
    + intros k prior Hk. rewrite Hsp2, Hmoves2, <- Hmoves0.
      apply Hp1. by rewrite Hsp0.
  - apply expand_Done in Hrun as (_ & _ & _ & Hsr' & _ & Hmoves' & prior' & Hsp' & _).
    split.
    + intros k r Hk. rewrite Hsr'. by apply cache_reward_keeps.
    + intros k prior Hk.
      assert (state ≠ k) as Hne by (intros ->; rewrite Hsp0 in Hprior; congruence).
      rewrite Hsp', Hmoves', !lookup_insert_ne by exact Hne.
      by rewrite Hsp0, Hmoves0.
Qed.

(** A call that returns removes no edge and lowers no visit count. *)
Lemma search_visits_mono fuel : ∀ state (st : store F) v st',
  (∀ k, is_Some (sa_n st !! k) → is_Some (sa_q st !! k)) →
  search fuel state st = Done (v, st') →
  (∀ k, is_Some (sa_q st !! k) → is_Some (sa_q st' !! k))
  ∧ (∀ k n, sa_n st !! k = Some n → ∃ n', sa_n st' !! k = Some n' ∧ n ≤ n')
  ∧ (∀ k n, is_Some (s_p st !! k) → s_n st !! k = Some n →
       ∃ n', s_n st' !! k = Some n' ∧ n ≤ n')
  ∧ (∀ k, is_Some (sa_n st' !! k) → is_Some (sa_q st' !! k)).
Proof.
  induction fuel as [| fuel IH]; intros state st v st' Hdom Hrun; [discriminate |].
  rewrite search_unfold in Hrun. cbn zeta in Hrun.
  destruct (cache_reward_frame get_reward st state) as (Hq0 & Hn0 & Hsn0 & Hsp0 & _).
  destruct (is_terminal _ _).
  { injection Hrun as <- <-. rewrite Hq0, Hn0, Hsn0.
    split; [done |]. split; [| split; [| exact Hdom]].
    - intros k n Hk. exists n. split; [exact Hk | lia].
    - intros k n _ Hk. exists n. split; [exact Hk | lia]. }
  destruct (s_p (cache_reward state st) !! state) as [prior0 |] eqn:Hprior.
  - destruct (select _ state) as [a |]; [| discriminate]. cbn [obind] in Hrun.
    destruct (next_state _ state a) as [next_s |]; [| discriminate].
    cbn [obind] in Hrun.
    destruct (search fuel next_s _) as [[value st1] |] eqn:Hrec; [| discriminate].
    cbn [obind] in Hrun.
    assert (∀ k, is_Some (sa_n (cache_reward state st) !! k)
                 → is_Some (sa_q (cache_reward state st) !! k)) as Hdom0
      by (intros k; rewrite Hq0, Hn0; apply Hdom).
    destruct (IH _ _ _ _ Hdom0 Hrec) as (Hq1 & Hn1 & Hsn1 & Hdom1).
    rewrite Hq0 in Hq1. rewrite Hn0 in Hn1. rewrite Hsn0, Hsp0 in Hsn1.
    apply backup_Done in Hrun
      as (_ & _ & _ & _ & _ & (m & Hm & Hsn2) & Hedges).
    assert (∃ q' n', sa_q st' = <[(state, a) := q']> (sa_q st1)
                     ∧ sa_n st' = <[(state, a) := n']> (sa_n st1)
                     ∧ ∀ n1, sa_n st1 !! (state, a) = Some n1 → n1 ≤ n')
      as (q' & n' & Hq2 & Hn2 & Hle2).
    { destruct Hedges as [(q & na & _ & Hna & Hq2 & Hn2) | (Hnone & Hq2 & Hn2)].
      - eexists _, _. split; [exact Hq2 |]. split; [exact Hn2 |].
        intros n1 Hn1'. rewrite Hna in Hn1'. injection Hn1' as <-. lia.
      - eexists _, _. split; [exact Hq2 |]. split; [exact Hn2 |].
        intros n1 Hn1'. destruct (Hdom1 (state, a)) as [q Hq]; [by eexists |].
        congruence. }
    rewrite Hq2, Hn2, Hsn2.
    split; [| split; [| split]].
    + intros k Hk. apply lookup_insert_is_Some'. right. by apply Hq1.
    + intros k n Hk. destruct (Hn1 k n Hk) as (n1 & Hk1 & Hle).
      destruct (decide ((state, a) = k)) as [<- | Hne].
      * rewrite lookup_insert_eq. eexists. split; [reflexivity |].
        specialize (Hle2 n1 Hk1). lia.
      * rewrite lookup_insert_ne by exact Hne. by exists n1.
    + intros k n Hexp Hk. destruct (Hsn1 k n Hexp Hk) as (n1 & Hk1 & Hle).
      destruct (decide (state = k)) as [<- | Hne].
      * rewrite lookup_insert_eq. rewrite Hm in Hk1. injection Hk1 as <-.
        eexists. split; [reflexivity | lia].
      * rewrite lookup_insert_ne by exact Hne. by exists n1.
    + intros k. rewrite !lookup_insert_is_Some'.
      intros [Hk | Hk]; [by left | right; by apply Hdom1].
  - apply expand_Done in Hrun as (_ & Hq' & Hn' & _ & Hsn' & _).
    rewrite Hq', Hn', Hsn', Hq0, Hn0, Hsn0.
    split; [done |]. split; [| split; [| exact Hdom]].
    + intros k n Hk. exists n. split; [exact Hk | lia].
    + intros k n Hexp Hk.
      assert (state ≠ k) as Hne.
      { intros ->. rewrite Hsp0 in Hprior. rewrite Hprior in Hexp. by destruct Hexp. }
      rewrite lookup_insert_ne by exact Hne. exists n. split; [exact Hk | lia].
Qed.

(** A call that returns gives a visit count to every edge with a mean
    value. *)
Lemma search_edge_keys fuel : ∀ state (st : store F) v st',
  (∀ k, is_Some (sa_q st !! k) → is_Some (sa_n st !! k)) →
  search fuel state st = Done (v, st') →
  ∀ k, is_Some (sa_q st' !! k) → is_Some (sa_n st' !! k).
Proof.
  induction fuel as [| fuel IH]; intros state st v st' Hdom Hrun; [discriminate |].
  rewrite search_unfold in Hrun. cbn zeta in Hrun.
  destruct (cache_reward_frame get_reward st state) as (Hq0 & Hn0 & _).
  assert (∀ k, is_Some (sa_q (cache_reward state st) !! k)
               → is_Some (sa_n (cache_reward state st) !! k)) as Hdom0
    by (intros k; rewrite Hq0, Hn0; apply Hdom).
  destruct (is_terminal _ _).
  { by injection Hrun as <- <-. }
  destruct (s_p (cache_reward state st) !! state).
  - destruct (select _ state) as [a |]; [| discriminate]. cbn [obind] in Hrun.
    destruct (next_state _ state a) as [next_s |]; [| discriminate].
    cbn [obind] in Hrun.
    destruct (search fuel next_s _) as [[value st1] |] eqn:Hrec; [| discriminate].
    cbn [obind] in Hrun.
    pose proof (IH _ _ _ _ Hdom0 Hrec) as Hdom1.
    apply backup_Done in Hrun
      as (_ & _ & _ & _ & _ & _ &
          [(q & na & _ & _ & Hq2 & Hn2) | (_ & Hq2 & Hn2)]);
      intros k; rewrite Hq2, Hn2, !lookup_insert_is_Some';
      (intros [Hk | Hk]; [by left | right; by apply Hdom1]).
  - apply expand_Done in Hrun as (_ & Hq' & Hn' & _).
    intros k. rewrite Hq', Hn'. apply Hdom0.
Qed.

(** X2: on a search object whose two edge tables have the same keys, a
    call of [search] that returns removes no edge and lowers no visit
    count: every edge keeps a mean value, its visit count does not
    decrease, neither does the visit count of an expanded state, and the
    two edge tables still have the same keys. *)
Theorem search_visits_grow fuel state (st : store F) v st' :
  (∀ k, is_Some (sa_q st !! k) ↔ is_Some (sa_n st !! k)) →
  search fuel state st = Done (v, st') →
  (∀ k, is_Some (sa_q st !! k) → is_Some (sa_q st' !! k))
  ∧ (∀ k n, sa_n st !! k = Some n → ∃ n', sa_n st' !! k = Some n' ∧ n ≤ n')
  ∧ (∀ k n, is_Some (s_p st !! k) → s_n st !! k = Some n →
       ∃ n', s_n st' !! k = Some n' ∧ n ≤ n')
  ∧ (∀ k, is_Some (sa_q st' !! k) ↔ is_Some (sa_n st' !! k)).
Proof.
  intros Hdom Hrun.
  destruct (search_visits_mono fuel state st v st' (λ k, proj2 (Hdom k)) Hrun)
    as (Hq & Hn & Hsn & Hback).
  pose proof (search_edge_keys fuel state st v st' (λ k, proj1 (Hdom k)) Hrun) as Hforth.
  split; [exact Hq |]. split; [exact Hn |]. split; [exact Hsn |].
  intros k. split; [apply Hforth | apply Hback].
Qed.

(** *** Calls of the evaluator *)

Lemma expand_events state (st : store F) v st' :
  expand state st = Done (v, st') →
  events st' = events st ++ [EvPredict state]
  ∨ events st' = events st ++ [EvPredict state; EvPrint "warning: all moves masked"].
Proof.
  unfold expand. destruct (predict state) as [probs value].
  destruct (masked_probs probs _) as [masked |]; [| discriminate].
  cbn [orelse obind].
  destruct (feqb (np_sum masked) (of_Z 0));
    [| destruct (negb (feqb (np_sum masked) (of_Z 1)))];
    intros [= <- <-]; cbn; [right | left | left]; by rewrite <- ?app_assoc.
Qed.

(** X3: a call of [search] that returns has called the evaluator at most
    once, and then on a state that had no prior vector and has one now;
    the only other output is the warning of that expansion. *)
Theorem search_one_evaluation fuel : ∀ state (st : store F) v st',
  search fuel state st = Done (v, st') →
  events st' = events st
  ∨ ∃ leaf,
      s_p st !! leaf = None ∧ is_Some (s_p st' !! leaf)
      ∧ (events st' = events st ++ [EvPredict leaf]
         ∨ events st' = events st ++ [EvPredict leaf; EvPrint "warning: all moves masked"]).
Proof.
  induction fuel as [| fuel IH]; intros state st v st' Hrun; [discriminate |].
  rewrite search_unfold in Hrun. cbn zeta in Hrun.
  destruct (cache_reward_frame get_reward st state) as (_ & _ & _ & Hsp0 & _ & Hev0).
  destruct (is_terminal _ _).
  { injection Hrun as <- <-. by left. }
  destruct (s_p (cache_reward state st) !! state) as [prior0 |] eqn:Hprior.
  - destruct (select _ state) as [a |]; [| discriminate]. cbn [obind] in Hrun.
    destruct (next_state _ state a) as [next_s |]; [| discriminate].
    cbn [obind] in Hrun.
    destruct (search fuel next_s _) as [[value st1] |] eqn:Hrec; [| discriminate].
    cbn [obind] in Hrun.
    apply backup_Done in Hrun as (_ & Hsp2 & _ & _ & Hev2 & _).
    rewrite Hsp2, Hev2, <- Hev0.
    destruct (IH _ _ _ _ Hrec) as [Hsame | (leaf & Hnew & Hexp & Hev)].
    + by left.
    + right. exists leaf. rewrite <- Hsp0. auto.
  - right. exists state. rewrite <- Hsp0, <- Hev0.
    split; [exact Hprior |]. split; [| by eapply expand_events].
    apply expand_Done in Hrun as (_ & _ & _ & _ & _ & _ & prior' & -> & _).
    rewrite lookup_insert_eq. by eexists.
Qed.

(** *** [get_probs] with nothing to divide by *)

Lemma masked_probs_is_Some (probs : list F) (valid_actions : list Z) :
  (225 ≤ length probs)%nat →
  is_Some (masked_probs probs (mask_of valid_actions)).
Proof.
  intros Hlen. unfold masked_probs. apply mapM_is_Some, Forall_forall.
  intros i Hi%range_elem. cbn.
  rewrite mask_of_lookup by exact Hi.
  destruct (getitem_is_Some probs i) as [p ->]; [unfold BOARD_SIZE in Hi; lia |].
  by eexists.
Qed.

Lemma counts_cons (st : store F) root :
  ∃ c cs, counts st root = c :: cs.
Proof.
  unfold counts, range, BOARD_SIZE. rewrite seqZ_cons by lia. by eexists _, _.
Qed.

Lemma get_probs_no_edges fuel n root (st st' : store F) :
  playouts fuel n root st = Done st' → sa_n st' = ∅ →
  get_probs fuel n root st = Raised ZeroDivisionError.
Proof.
  intros Hrun Hempty. unfold get_probs. rewrite Hrun. cbn [obind].
  rewrite (counts_same MCTS_init st' root)
    by (intros a; rewrite Hempty; reflexivity).
  destruct (counts_cons MCTS_init root) as (c & cs & Hcs). rewrite Hcs.
  rewrite <- Hcs at 1. by rewrite counts_init.
Qed.

Lemma playouts_terminal fuel n root : ∀ st : store F,
  is_terminal root (terminal_reward st root) = true → sa_n st = ∅ →
  ∃ st', playouts (S fuel) n root st = Done st' ∧ sa_n st' = ∅.
Proof.
  induction n as [| n IH]; intros st Hterm Hempty; [by exists st |].
  cbn [playouts]. rewrite search_unfold. cbn zeta. rewrite Hterm. cbn [obind].
  destruct (cache_reward_frame get_reward st root) as (_ & Hn0 & _).
  apply IH; [| by rewrite Hn0].
  unfold terminal_reward. rewrite cache_reward_lookup. exact Hterm.
Qed.

(** X4: on a root that is terminal (its reward is not 0, or it has no
    empty cell) [get_probs] raises ZeroDivisionError for every playout
    count: no playout creates an edge, so the counts sum to 0. *)
Theorem get_probs_terminal_root fuel n root :
  is_terminal root (get_reward root 1) = true →
  get_probs (S fuel) n root MCTS_init = Raised ZeroDivisionError.
Proof.
  intros Hterm.
  destruct (playouts_terminal fuel n root MCTS_init) as (st' & Hrun & Hempty).
  - unfold terminal_reward. cbn [s_r MCTS_init]. by rewrite lookup_empty.
  - reflexivity.
  - by eapply get_probs_no_edges.
Qed.

(** X5: with a playout count of 0, and with a playout count of 1 on a
    root that is not terminal and gets at least 225 priors, [get_probs]
    raises ZeroDivisionError: the only playout expands the root and
    creates no edge. *)
Theorem get_probs_single_playout fuel root :
  is_terminal root (get_reward root 1) = false →
  (225 ≤ length (fst (predict root)))%nat →
  get_probs fuel 0 root MCTS_init = Raised ZeroDivisionError
  ∧ get_probs (S fuel) 1 root MCTS_init = Raised ZeroDivisionError.
Proof.
  intros Hopen Hlen. split.
  - by apply (get_probs_no_edges fuel 0 root MCTS_init MCTS_init).
  - assert (∃ v st', search (S fuel) root MCTS_init = Done (v, st') ∧ sa_n st' = ∅)
      as (v & st' & Hrun & Hempty).
    { rewrite search_unfold. cbn zeta.
      unfold terminal_reward. cbn [s_r MCTS_init]. rewrite lookup_empty, Hopen.
      destruct (cache_reward_frame get_reward (MCTS_init : store F) root)
        as (_ & Hn0 & _ & Hsp0 & _).
      rewrite Hsp0. cbn [s_p MCTS_init]. rewrite lookup_empty.
      assert (∃ v st', expand root (cache_reward root MCTS_init) = Done (v, st'))
        as (v & st' & Hexp).
      { unfold expand. destruct (predict root) as [probs value]. cbn [fst] in Hlen.
        destruct (masked_probs_is_Some probs
                    (get_valid_actions_1d root valid_actions_distance) Hlen)
          as [masked ->].
        cbn [orelse obind].
        destruct (feqb _ _); [| destruct (negb _)]; by eexists _, _. }
      exists v, st'. split; [exact Hexp |].
      apply expand_Done in Hexp as (_ & _ & -> & _). by rewrite Hn0. }
    apply (get_probs_no_edges (S fuel) 1 root MCTS_init st'); [| exact Hempty].
    cbn [playouts]. by rewrite Hrun.
Qed.

(** *** Edges have been visited *)

Lemma search_visits_positive fuel : ∀ state (st : store F) v st',
  (∀ k n, sa_n st !! k = Some n → 1 ≤ n) →
  search fuel state st = Done (v, st') →
  ∀ k n, sa_n st' !! k = Some n → 1 ≤ n.
Proof.
  induction fuel as [| fuel IH]; intros state st v st' Hpos Hrun; [discriminate |].
  rewrite search_unfold in Hrun. cbn zeta in Hrun.
  destruct (cache_reward_frame get_reward st state) as (_ & Hn0 & _).
  destruct (is_terminal _ _).
  { injection Hrun as <- <-. by rewrite Hn0. }
  destruct (s_p (cache_reward state st) !! state) as [prior0 |].
  - destruct (select _ state) as [a |]; [| discriminate]. cbn [obind] in Hrun.
    destruct (next_state _ state a) as [next_s |]; [| discriminate].
    cbn [obind] in Hrun.
    destruct (search fuel next_s _) as [[value st1] |] eqn:Hrec; [| discriminate].
    cbn [obind] in Hrun.
    assert (∀ k n, sa_n st1 !! k = Some n → 1 ≤ n) as Hpos1.
    { eapply IH; [| exact Hrec]. by rewrite Hn0. }
    apply backup_Done in Hrun as (_ & _ & _ & _ & _ & _ & Hedges).
    intros k n.
    destruct Hedges as [(q & na & _ & Hna & _ & ->) | (_ & _ & ->)];
      (intros [[<- <-] | [_ Hk]]%lookup_insert_Some; [| by eapply Hpos1]).
    + specialize (Hpos1 _ _ Hna). lia.
    + lia.
  - apply expand_Done in Hrun as (_ & _ & -> & _). by rewrite Hn0.
Qed.

Lemma playouts_visits_positive fuel n : ∀ state (st st' : store F),
  (∀ k m, sa_n st !! k = Some m → 1 ≤ m) →
  playouts fuel n state st = Done st' →
  ∀ k m, sa_n st' !! k = Some m → 1 ≤ m.
Proof.
  induction n as [| n IH]; intros state st st' Hpos Hrun.
  - by injection Hrun as <-.
  - cbn [playouts] in Hrun.
    destruct (search fuel state st) as [[v st1] |] eqn:Hs; [| discriminate].
    cbn [obind] in Hrun. eapply IH; [| exact Hrun].
    by eapply search_visits_positive.
Qed.

End Growth.

(** ** The distribution of [get_probs] and the move chosen from it *)

Lemma np_sum_ratio (cs : list Z) (s : R) :
  np_sum (map (λ c, fdiv (of_Z c) s) cs) = (IZR (py_sum cs) / s)%R.
Proof.
  induction cs as [| c cs IH].
  - unfold np_sum, py_sum. cbn. unfold Rdiv. by rewrite Rmult_0_l.
  - cbn [map]. rewrite np_sum_cons, py_sum_cons, IH, plus_IZR. cbn. lra.
Qed.

Lemma counts_length {F : Type} (st : store F) root :
  length (counts st root) = 225%nat.
Proof. unfold counts, range. by rewrite length_fmap, length_seqZ. Qed.

Lemma counts_lookup {F : Type} (st : store F) root (a : Z) :
  0 ≤ a < 225 →
  counts st root !! Z.to_nat a = Some (default 0 (sa_n st !! (root, a))).
Proof.
  intros Ha. unfold counts, range.
  rewrite list_lookup_fmap, lookup_seqZ_lt by (unfold BOARD_SIZE; lia). cbn.
  replace (0 + Z.of_nat (Z.to_nat a)) with a by lia.
  by destruct (sa_n st !! (root, a)).
Qed.

Section Distribution.

Local Open Scope R_scope.

Variable predict : board → list R * R.
Variable get_reward : board → Z → Z.
Variable get_valid_actions_1d : board → Z → list Z.
Variable index_to_pos : Z → Z * Z.

Local Abbreviation get_probs :=
  (get_probs predict get_reward get_valid_actions_1d index_to_pos).
Local Abbreviation playouts :=
  (playouts predict get_reward get_valid_actions_1d index_to_pos).
Local Abbreviation choose_action :=
  (choose_action predict get_reward get_valid_actions_1d index_to_pos).

Lemma get_probs_Done fuel n root (st : store R) probs st' :
  get_probs fuel n root st = Done (probs, st') →
  playouts fuel n root st = Done st'
  ∧ py_sum (counts st' root) ≠ 0%Z
  ∧ probs = map (λ c, IZR c / IZR (py_sum (counts st' root))) (counts st' root).
Proof.
  unfold get_probs. destruct (playouts fuel n root st) as [st1 |]; [| discriminate].
  cbn [obind]. destruct (counts_cons st1 root) as (c & cs & Hcs).
  rewrite Hcs.
  destruct (Z.eqb_spec (py_sum (c :: cs)) 0) as [| Hne]; [discriminate |].
  intros [= <- <-]. rewrite Hcs. split; [reflexivity |]. split; [exact Hne | reflexivity].
Qed.

(** X6: over exact arithmetic, whenever [get_probs] returns, its result
    has 225 entries, entry [a] is the visit count of the root edge [a]
    divided by the sum of these counts (0 where there is no edge), and
    the entries sum to 1. *)
Theorem get_probs_distribution fuel n root (st : store R) probs st' :
  get_probs fuel n root st = Done (probs, st') →
  length probs = 225%nat
  ∧ np_sum probs = 1
  ∧ ∀ a, (0 ≤ a < 225)%Z →
      getitem probs a
      = Some (IZR (default 0%Z (sa_n st' !! (root, a)))
              / IZR (py_sum (counts st' root))).
Proof.
  intros (_ & Hne & ->)%get_probs_Done.
  split; [by rewrite length_map, counts_length |]. split.
  - rewrite (np_sum_ratio (counts st' root)). apply Rinv_r. by apply not_0_IZR.
  - intros a Ha. rewrite getitem_nonneg by lia.
    by rewrite list_lookup_fmap, counts_lookup.
Qed.

(** *** The move read from the distribution *)

Lemma py_max_greatest (x : R) (rest : list R) :
  let m := fold_left (λ m y, if Rgtb y m then y else m) rest x in
  m ∈ x :: rest ∧ Forall (λ y, y <= m) (x :: rest).
Proof.
  cbn zeta. revert x. induction rest as [| y rest IH]; intros x.
  - cbn. split; [left | constructor; [lra | constructor]].
  - cbn [fold_left].
    destruct (Rgtb y x) eqn:Hgt.
    + apply Rgtb_true in Hgt. destruct (IH y) as [Hin Hall].
      split; [by right |]. apply Forall_cons in Hall as [Hy Hall].
      constructor; [lra |]. by constructor.
    + apply Rgtb_false in Hgt. destruct (IH x) as [Hin Hall].
      apply Forall_cons in Hall as [Hx Hall].
      split.
      * apply elem_of_cons in Hin as [-> | Hin]; [left | right; by right].
      * constructor; [exact Hx |]. constructor; [lra | exact Hall].
Qed.

Lemma py_index_first (l : list R) (m : R) : ∀ i,
  m ∈ l →
  ∃ k, py_index l m i = Done (i + Z.of_nat k)%Z
       ∧ l !! k = Some m ∧ Forall (λ x, x ≠ m) (take k l).
Proof.
  induction l as [| x l IH]; intros i Hin; [by apply elem_of_nil in Hin |].
  cbn [py_index feqb real_arith].
  destruct (Reqb x m) eqn:Heq.
  - apply Reqb_true in Heq as ->. exists 0%nat.
    split; [f_equal; lia |]. split; [reflexivity | constructor].
  - apply Reqb_false in Heq.
    apply elem_of_cons in Hin as [-> | Hin]; [congruence |].
    destruct (IH (i + 1)%Z Hin) as (k & -> & Hk & Hbefore).
    exists (S k). split; [f_equal; lia |]. split; [exact Hk |].
    cbn [take]. by constructor.
Qed.

Lemma argmax_first_max (l : list R) :
  l ≠ [] →
  ∃ m i, py_max l = Done m ∧ py_index l m 0 = Done (Z.of_nat i) ∧ first_max l i.
Proof.
  destruct l as [| x rest]; [done |]. intros _.
  destruct (py_max_greatest x rest) as [Hin Hall]. cbn zeta in *.
  set (m := fold_left _ rest x) in *.
  destruct (py_index_first (x :: rest) m 0 Hin) as (k & Hidx & Hk & Hbefore).
  exists m, k. split; [reflexivity |]. split; [exact Hidx |].
  exists m. split; [exact Hk |]. split; [| exact Hall].
  apply Forall_forall. intros y Hy.
  assert (y ∈ x :: rest) as Hy'.
  { pose proof Hy as (j & Hj & _)%elem_of_take. by eapply list_elem_of_lookup_2. }
  pose proof (proj1 (Forall_forall _ _) Hall y Hy') as Hle.
  pose proof (proj1 (Forall_forall _ _) Hbefore y Hy) as Hne.
  cbn in *. lra.
Qed.

Lemma counts_nonneg (st : store R) root :
  (∀ k m, sa_n st !! k = Some m → (1 ≤ m)%Z) →
  Forall (λ c, (0 ≤ c)%Z) (counts st root).
Proof.
  intros Hpos. unfold counts. apply Forall_fmap, Forall_forall. intros a _. cbn.
  destruct (sa_n st !! (root, a)) as [m |] eqn:Hm; [| lia].
  specialize (Hpos _ _ Hm). lia.
Qed.

Lemma py_sum_nonneg (cs : list Z) :
  Forall (λ c, (0 ≤ c)%Z) cs → (0 ≤ py_sum cs)%Z.
Proof.
  induction 1 as [| c cs Hc _ IH]; [reflexivity |]. rewrite py_sum_cons. lia.
Qed.

Lemma first_max_ratio (cs : list Z) (s : R) (i : nat) :
  0 < s → first_max (map (λ c, IZR c / s) cs) i → first_most_visited cs i.
Proof.
  intros Hs (m & Hi & Hbefore & Hall).
  rewrite list_lookup_fmap in Hi.
  destruct (cs !! i) as [c |] eqn:Hc; [| discriminate]. injection Hi as <-.
  assert (0 < / s) as Hinv by (by apply Rinv_0_lt_compat).
  assert (∀ x, IZR x / s < IZR c / s → (x < c)%Z) as Hlt.
  { intros x Hx. apply lt_IZR. unfold Rdiv in Hx. nra. }
  assert (∀ x, IZR x / s <= IZR c / s → (x ≤ c)%Z) as Hle.
  { intros x Hx. apply le_IZR. unfold Rdiv in Hx. nra. }
  exists c. split; [exact Hc |]. split.
  - rewrite <- fmap_take in Hbefore. apply Forall_fmap in Hbefore.
    eapply Forall_impl; [exact Hbefore |]. cbn. auto.
  - apply Forall_fmap in Hall. eapply Forall_impl; [exact Hall |]. cbn. auto.
Qed.

(** X8: over exact arithmetic, when [get_probs] returns on a new search
    object for a board with a stone, [choose_action] answers with the
    position of the root action that was visited most, the one of lowest
    index among equals. *)
Theorem choose_action_most_visited fuel player_num n state probs st' :
  count_nonzero (player_perspective player_num state) ≠ 0%Z →
  get_probs fuel n (player_perspective player_num state) MCTS_init
    = Done (probs, st') →
  ∃ i, choose_action fuel player_num n state MCTS_init
       = Done (index_to_pos (Z.of_nat i), st')
    ∧ first_most_visited
        (counts st' (player_perspective player_num state)) i.
Proof.
  intros Hstone Hrun. unfold choose_action.
  destruct (Z.eqb_spec (count_nonzero (player_perspective player_num state)) 0)
    as [| _]; [contradiction |].
  rewrite Hrun. cbn [obind].
  apply get_probs_Done in Hrun as (Hplay & Hne & ->).
  set (root := player_perspective player_num state) in *.
  assert (Forall (λ c, (0 ≤ c)%Z) (counts st' root)) as Hnonneg.
  { apply counts_nonneg.
    eapply (playouts_visits_positive predict get_reward get_valid_actions_1d
              index_to_pos fuel n root MCTS_init st'); [| exact Hplay].
    intros k m. cbn. by rewrite lookup_empty. }
  assert (0 < IZR (py_sum (counts st' root))) as Hsum.
  { apply IZR_lt. pose proof (py_sum_nonneg _ Hnonneg). lia. }
  destruct (argmax_first_max
              (map (λ c, IZR c / IZR (py_sum (counts st' root))) (counts st' root)))
    as (m & i & -> & Hidx & Hfirst).
  { destruct (counts_cons st' root) as (c & cs & ->). discriminate. }
  cbn [obind]. cbn [of_Z fdiv real_arith] in *. rewrite Hidx. cbn [obind].
  exists i. split; [reflexivity |]. by eapply first_max_ratio.
Qed.

Section Contract.

Hypothesis predict_size : ∀ b, (225 ≤ length (fst (predict b)))%nat.
Hypothesis oracle_contract : oracle_ok get_valid_actions_1d index_to_pos.
Variable root : board.
Variable fuel : nat.
Hypothesis root_shape : shape_ok root.
Hypothesis root_stone : (0 < count_nonzero root)%Z.
Hypothesis root_open : is_terminal root (get_reward root 1) = false.
Hypothesis enough_fuel : (226 ≤ fuel)%nat.

Lemma get_probs_run n :
  ∃ st,
    playouts fuel (S (S n)) root MCTS_init = Done st
    ∧ py_sum (counts st root) = Z.of_nat (S n)
    ∧ get_probs fuel (S (S n)) root MCTS_init
      = Done (map (λ c, fdiv (of_Z c) (of_Z (py_sum (counts st root))))
                (counts st root), st).
Proof.
  destruct (first_playout predict get_reward get_valid_actions_1d index_to_pos
              predict_size oracle_contract root fuel
              root_shape root_stone root_open enough_fuel)
    as (v & st1 & Hfirst & Hinv1 & Hexp1 & Hsum1).
  destruct (playouts_expanded predict get_reward get_valid_actions_1d index_to_pos
              predict_size oracle_contract root fuel
              root_shape root_stone root_open enough_fuel (S n) st1 Hinv1 Hexp1)
    as (st & Hrest & Hsum).
  assert (playouts fuel (S (S n)) root MCTS_init = Done st) as Hplay.
  { change (playouts fuel (S (S n)) root MCTS_init)
      with (obind (search predict get_reward get_valid_actions_1d index_to_pos
                         fuel root MCTS_init)
              (λ '(_, st0), playouts fuel (S n) root st0)).
    rewrite Hfirst. exact Hrest. }
  assert (py_sum (counts st root) = Z.of_nat (S n)) as Hsum' by lia.
  exists st. split; [exact Hplay |]. split; [exact Hsum' |].
  unfold get_probs. rewrite Hplay. cbn [obind].
  destruct (counts_cons st root) as (c & cs & Hcs). rewrite Hcs.
  destruct (Z.eqb_spec (py_sum (c :: cs)) 0) as [Hz | _];
    [rewrite <- Hcs in Hz; lia | reflexivity].
Qed.

End Contract.

Section Returning.

Hypothesis evaluator_contract : evaluator_ok predict.
Hypothesis reward_bounded : ∀ b, (-1 ≤ get_reward b 1 ≤ 1)%Z.
Hypothesis oracle_contract : oracle_ok get_valid_actions_1d index_to_pos.

(** X7: over exact arithmetic, from a 15 by 15 root that is not terminal
    and holds a stone, with an evaluator that answers with at least 225
    probabilities and a value in [-1, 1], rewards in {-1, 0, 1}, an oracle
    that keeps its contract, a recursion budget of at least 226 and a
    playout count of at least 2, [get_probs] on a new search object
    returns; its entries are not negative and sum to 1, and every stored
    prior stays in [0, 1] and every mean value in [-1, 1]. *)
Theorem get_probs_returns root fuel n :
  shape_ok root → (0 < count_nonzero root)%Z →
  is_terminal root (get_reward root 1) = false →
  (226 ≤ fuel)%nat →
  ∃ probs st,
    get_probs fuel (S (S n)) root MCTS_init = Done (probs, st)
    ∧ np_sum probs = 1
    ∧ Forall (λ p, 0 <= p) probs
    ∧ priors_bounded st ∧ edges_bounded st.
Proof.
  intros Hshape Hstone Hopen Hfuel.
  destruct (get_probs_run (λ b, proj1 (evaluator_contract b)) oracle_contract
              root fuel Hshape Hstone Hopen Hfuel n) as (st & Hplay & Hsum' & Hrun).
  assert (Forall (λ c, (0 ≤ c)%Z) (counts st root)) as Hnonneg.
  { apply counts_nonneg.
    eapply (playouts_visits_positive predict get_reward get_valid_actions_1d
              index_to_pos fuel (S (S n)) root MCTS_init st); [| exact Hplay].
    intros k m. cbn. by rewrite lookup_empty. }
  exists (map (λ c, fdiv (of_Z c) (of_Z (py_sum (counts st root))))
            (counts st root)), st.
  split; [exact Hrun |]. split; [| split].
  - rewrite (np_sum_ratio (counts st root)). cbn [of_Z real_arith].
    apply Rinv_r. apply not_0_IZR. lia.
  - apply Forall_fmap. eapply Forall_impl; [exact Hnonneg |].
    intros c Hc. cbn.
    assert (0 <= IZR c) by (by apply IZR_le).
    assert (0 < IZR (py_sum (counts st root))) by (apply IZR_lt; lia).
    apply Rmult_le_pos; [assumption |]. left. by apply Rinv_0_lt_compat.
  - apply (reached_in_range predict get_reward get_valid_actions_1d index_to_pos
             evaluator_contract reward_bounded fuel (replicate (S (S n)) root)).
    rewrite <- playouts_search_seq. exact Hplay.
Qed.

End Returning.

End Distribution.

(** ** Training mode *)

Section TrainingFacts.

Context {F : Type} `{Arith F}.
Variable predict : board → list F * F.
Variable get_reward : board → Z → Z.
Variable get_valid_actions_1d : board → Z → list Z.
Variable index_to_pos : Z → Z * Z.

Local Abbreviation choose_action :=
  (choose_action predict get_reward get_valid_actions_1d index_to_pos).
Local Abbreviation choose_action_training :=
  (choose_action_training predict get_reward get_valid_actions_1d index_to_pos).

Lemma one_hot_112 :
  setitem (replicate 225 (of_Z 0)) 112 (of_Z 1)
  = Some (replicate 112 (of_Z 0) ++ of_Z 1 :: replicate 112 (of_Z (F:=F) 0)).
Proof.
  unfold setitem. rewrite length_replicate.
  change (norm_index 225 112) with (Some 112%nat). cbn [mbind option_bind].
  reflexivity.
Qed.

(** X9: for a player that is not player 2, [choose_action] and
    [choose_action_training] decide alike on every board: the same move
    and the same search object afterwards, or the same exception. *)
Theorem training_same_move fuel player_num n state (st : store F) :
  player_num ≠ 2 →
  choose_action fuel player_num n state st
  = obind (choose_action_training fuel n state st)
      (λ '(best_action, _, st'), Done (best_action, st')).
Proof.
  intros Hp. unfold choose_action, choose_action_training, player_perspective.
  destruct (Z.eqb_spec player_num 2) as [| _]; [contradiction |].
  destruct (count_nonzero state =? 0).
  - rewrite one_hot_112. reflexivity.
  - destruct (get_probs _ _ _ _ fuel n state st) as [[probs st'] |]; [| reflexivity].
    cbn [obind]. destruct (py_max probs) as [m |]; [| reflexivity].
    cbn [obind]. destruct (py_index probs m 0) as [i |]; reflexivity.
Qed.

(** X10: on a board with no stone [choose_action_training] answers
    (7, 7) with a distribution of 225 entries that is 1 at index 112 and
    0 elsewhere, and leaves the search object untouched, whatever the
    collaborators and the recursion budget are. *)
Theorem training_empty_board fuel n state (st : store F) :
  all_empty state →
  choose_action_training fuel n state st
  = Done ((7, 7),
          replicate 112 (of_Z 0) ++ of_Z 1 :: replicate 112 (of_Z 0),
          st).
Proof.
  intros Hempty%count_nonzero_nil_iff. unfold choose_action_training.
  rewrite Hempty. change (0 =? 0) with true. rewrite one_hot_112. reflexivity.
Qed.

End TrainingFacts.

(** ** Pure search: the evaluator [RandomPolicyValueClass] *)

Lemma np_sum_indicator (P : Z → Prop) `{!∀ i, Decision (P i)} (c : R) (l : list Z) :
  np_sum ((λ i, if bool_decide (P i) then c else 0%R) <$> l)
  = (INR (length (filter P l)) * c)%R.
Proof.
  induction l as [| i l IH]; [unfold np_sum; cbn; lra |].
  cbn [fmap list_fmap]. rewrite np_sum_cons, filter_cons.
  change (list_fmap Z R ?f l) with (f <$> l). rewrite IH.
  destruct (decide (P i)) as [Hi | Hi].
  - rewrite bool_decide_eq_true_2 by exact Hi. cbn [length]. rewrite S_INR. lra.
  - rewrite bool_decide_eq_false_2 by exact Hi. lra.
Qed.

Section PureSearch.

Local Open Scope R_scope.

Variable get_reward : board → Z → Z.
Variable get_valid_actions_1d : board → Z → list Z.
Variable index_to_pos : Z → Z * Z.

Local Abbreviation search :=
  (search (F:=R) random_predict get_reward get_valid_actions_1d index_to_pos).

(** X11: over exact arithmetic, the first expansion of a state under the
    evaluator of pure search stores the uniform distribution on the
    oracle's actions: 1/k on each of the k indices in [0, 225) that the
    oracle returned (k > 0), 0 on the others; no warning is printed. *)
Theorem pure_search_prior fuel state (st : store R) :
  is_terminal state (terminal_reward get_reward st state) = false →
  s_p st !! state = None →
  let valid_actions := get_valid_actions_1d state 1 in
  let k := legal_count valid_actions in
  k ≠ 0%nat →
  ∃ st',
    search (S fuel) state st = Done (- 0, st')
    ∧ s_p st' !! state
      = Some ((λ i, if bool_decide (i ∈ valid_actions) then 1 / INR k else 0)
                <$> range BOARD_SIZE)
    ∧ events st' = events st ++ [EvPredict state].
Proof.
  intros Hopen Hleaf valid_actions k Hk.
  assert (0 < INR k) as HkR by (apply lt_0_INR; lia).
  rewrite search_unfold. cbn zeta. rewrite Hopen.
  destruct (cache_reward_frame get_reward st state) as (_ & _ & _ & -> & _ & Hev).
  rewrite Hleaf. unfold expand, random_predict, valid_actions_distance.
  fold valid_actions.
  rewrite (masked_probs_Some _ valid_actions)
    by (rewrite length_replicate; lia).
  cbn [orelse obind of_Z fdiv fopp feqb real_arith].
  set (c := 1 / 225).
  assert ((λ i, if bool_decide (i ∈ valid_actions)
                then default 0 (getitem (replicate 225 c) i) else 0)
            <$> range BOARD_SIZE
          = (λ i, if bool_decide (i ∈ valid_actions) then c else 0)
              <$> range BOARD_SIZE) as ->.
  { apply list_fmap_ext. intros j i Hi%list_elem_of_lookup_2%range_elem.
    destruct (bool_decide _); [| reflexivity].
    rewrite getitem_nonneg by lia.
    rewrite lookup_replicate_2 by (unfold BOARD_SIZE in Hi; lia). reflexivity. }
  rewrite (np_sum_indicator (λ i, i ∈ valid_actions) c).
  fold (legal_count valid_actions). fold k.
  assert (INR k * c ≠ 0) as Hsum by (unfold c; nra).
  rewrite (proj2 (Reqb_false _ _) Hsum).
  destruct (Reqb (INR k * c) 1) eqn:Hone; cbn [negb].
  - apply Reqb_true in Hone.
    eexists. split; [reflexivity |]. cbn. rewrite lookup_insert_eq, Hev.
    split; [| reflexivity]. f_equal. apply list_fmap_ext. intros _ i _.
    destruct (bool_decide _); [| reflexivity].
    unfold c in *. apply (Rmult_eq_reg_l (INR k)); [| lra].
    rewrite Hone. field. lra.
  - apply Reqb_false in Hone.
    eexists. split; [reflexivity |]. cbn. rewrite lookup_insert_eq, Hev.
    split; [| reflexivity]. f_equal.
    change (map ?f ?l) with (f <$> l). rewrite <- list_fmap_compose.
    apply list_fmap_ext. intros _ i _. cbn.
    destruct (bool_decide _); unfold c; field; lra.
Qed.

End PureSearch.

(** ** The input planes of the network *)

Lemma input_layers_rebuild (state : board) :
  cells_ok state →
  zip_with (zip_with (λ self enemy, self + 2 * enemy))
    (AGC.input_layer 1 state) (AGC.input_layer 2 state) = state.
Proof.
  unfold AGC.input_layer.
  induction 1 as [| row state Hrow _ IH]; [reflexivity |].
  cbn [map zip_with]. f_equal; [| exact IH].
  clear -Hrow. induction Hrow as [| n row Hn _ IHrow]; [reflexivity |].
  cbn [map zip_with]. f_equal; [| exact IHrow].
  destruct Hn as [-> | [-> | ->]]; reflexivity.
Qed.

Lemma input_layer_convert (state : board) :
  cells_ok state →
  AGC.input_layer 1 (convert_perspective state) = AGC.input_layer 2 state
  ∧ AGC.input_layer 2 (convert_perspective state) = AGC.input_layer 1 state.
Proof.
  unfold AGC.input_layer, convert_perspective.
  induction 1 as [| row state Hrow _ [IH1 IH2]]; [done |].
  cbn [map]. rewrite IH1, IH2.
  assert (map (λ p, if p =? 1 then 1 else 0) (map convert_cell row)
            = map (λ p, if p =? 2 then 1 else 0) row
          ∧ map (λ p, if p =? 2 then 1 else 0) (map convert_cell row)
            = map (λ p, if p =? 1 then 1 else 0) row) as [-> ->]; [| done].
  clear -Hrow. induction Hrow as [| n row Hn _ [IH1 IH2]]; [done |].
  cbn [map]. rewrite IH1, IH2.
  destruct Hn as [-> | [-> | ->]]; done.
Qed.

(** X12: on boards with cells 0, 1 or 2, [convert_to_nn_readable] loses
    nothing: every cell is the first plane plus twice the second, so two
    boards with the same network input are the same board. *)
Theorem nn_readable_injective (state state' : board) :
  cells_ok state → cells_ok state' →
  AGC.convert_to_nn_readable state = AGC.convert_to_nn_readable state' →
  state = state'.
Proof.
  intros Hok Hok' Heq.
  rewrite <- (input_layers_rebuild state Hok), <- (input_layers_rebuild state' Hok').
  unfold AGC.convert_to_nn_readable in Heq.
  destruct (AGC.np_sum_cells (AGC.input_layer 1 state)
            =? AGC.np_sum_cells (AGC.input_layer 2 state)),
           (AGC.np_sum_cells (AGC.input_layer 1 state')
            =? AGC.np_sum_cells (AGC.input_layer 2 state'));
    injection Heq as -> ->; reflexivity.
Qed.

(** X13: on a board with cells 0, 1 or 2, converting the perspective
    swaps the first two planes of the network input (own stones, enemy
    stones) and leaves the two planes that tell who moved first as they
    are. *)
Theorem nn_readable_convert (state : board) :
  cells_ok state →
  ∃ own enemy first second,
    AGC.convert_to_nn_readable state = [[own; enemy; first; second]]
    ∧ AGC.convert_to_nn_readable (convert_perspective state)
      = [[enemy; own; first; second]].
Proof.
  intros Hok. destruct (input_layer_convert state Hok) as [H1 H2].
  unfold AGC.convert_to_nn_readable. rewrite H1, H2.
  rewrite (Z.eqb_sym (AGC.np_sum_cells (AGC.input_layer 2 state))).
  destruct (AGC.np_sum_cells (AGC.input_layer 1 state)
            =? AGC.np_sum_cells (AGC.input_layer 2 state));
    by eexists _, _, _, _.
Qed.

(** ** [AGC.predict] *)

Section BrainFacts.

Context {F : Type} `{Arith F}.
Variable get_valid_actions : board → option Z → list (Z * Z).
Variable detect_win : board → Z → bool.
Variable index_to_pos : Z → Z * Z.
Variable model_predict : list (list board) → list (list F) * list F.

Local Abbreviation winning_action := (AGC.winning_action detect_win).
Local Abbreviation predict :=
  (AGC.predict get_valid_actions detect_win index_to_pos model_predict).

Lemma winning_action_none board actions :
  Forall (no_win detect_win board) actions →
  winning_action board actions = Done None.
Proof.
  induction 1 as [| action actions (state_copy & Hset & Hwin) _ IH]; [reflexivity |].
  cbn [AGC.winning_action]. rewrite Hset. cbn [orelse obind]. by rewrite Hwin.
Qed.

Lemma winning_action_first board before action after state_copy :
  Forall (no_win detect_win board) before →
  setitem2 board (fst action) (snd action) 1 = Some state_copy →
  detect_win state_copy 1 = true →
  winning_action board (before ++ action :: after) = Done (Some action).
Proof.
  intros Hbefore Hset Hwin.
  induction Hbefore as [| a before (copy & Hseta & Hwina) _ IH].
  - cbn [app AGC.winning_action]. rewrite Hset. cbn [orelse obind]. by rewrite Hwin.
  - cbn [app AGC.winning_action]. rewrite Hseta. cbn [orelse obind]. by rewrite Hwina.
Qed.

(** X14: when an action of the oracle wins at once, [AGC.predict] answers
    with the priors that are 1 at the indices of the first such action
    (in the oracle's order) and 0 elsewhere, and the value 0.99; the
    network is not consulted. *)
Theorem agc_predict_winning_move board before action after state_copy :
  get_valid_actions board None = before ++ action :: after →
  Forall (no_win detect_win board) before →
  setitem2 board (fst action) (snd action) 1 = Some state_copy →
  detect_win state_copy 1 = true →
  predict board
  = Done (map (λ i, if decide (index_to_pos i = action) then of_Z 1 else of_Z 0)
            (range BOARD_SIZE),
          fdiv (of_Z 99) (of_Z 100)).
Proof.
  intros Hactions Hbefore Hset Hwin. unfold AGC.predict.
  rewrite Hactions, (winning_action_first _ _ _ _ _ Hbefore Hset Hwin).
  reflexivity.
Qed.

(** X15: when no action of the oracle wins at once, [AGC.predict] answers
    with the first policy and the first value of the batch the network
    returns for the four input planes; an empty batch is an IndexError. *)
Theorem agc_predict_network board p v :
  Forall (no_win detect_win board) (get_valid_actions board None) →
  model_predict (AGC.convert_to_nn_readable board) = (p, v) →
  predict board
  = match p, v with
    | p0 :: _, v0 :: _ => Done (p0, v0)
    | _, _ => Raised IndexError
    end.
Proof.
  intros Hnone Hmodel. unfold AGC.predict.
  rewrite (winning_action_none _ _ Hnone). cbn [obind]. rewrite Hmodel.
  destruct p as [| p0 p]; [reflexivity |].
  destruct v as [| v0 v]; reflexivity.
Qed.

End BrainFacts.

(** ** [AGCPlayer.choose_action] *)

Lemma argmax_from_first_max (rest : list R) : ∀ seen best best_i,
  seen !! best_i = Some best →
  Forall (λ x, (x < best)%R) (take best_i seen) →
  Forall (λ x, (x <= best)%R) seen →
  ∃ j, argmax_from rest (Z.of_nat (length seen)) best (Z.of_nat best_i) = Z.of_nat j
       ∧ first_max (seen ++ rest) j.
Proof.
  induction rest as [| x rest IH]; intros seen best best_i Hbest Hbefore Hall.
  - exists best_i. rewrite app_nil_r. split; [reflexivity |]. by exists best.
  - cbn [argmax_from fgtb real_arith].
    replace (Z.of_nat (length seen) + 1) with (Z.of_nat (length (seen ++ [x])))
      by (rewrite length_app; cbn; lia).
    replace (seen ++ x :: rest) with ((seen ++ [x]) ++ rest)
      by (by rewrite <- app_assoc).
    pose proof (lookup_lt_Some _ _ _ Hbest) as Hlt.
    destruct (Rgtb x best) eqn:Hgt.
    + apply Rgtb_true in Hgt. apply IH.
      * by rewrite list_lookup_middle.
      * rewrite take_app_length. eapply Forall_impl; [exact Hall |].
        cbn. intros; lra.
      * apply Forall_app. split; [| constructor; [lra | constructor]].
        eapply Forall_impl; [exact Hall |]. cbn. intros; lra.
    + apply Rgtb_false in Hgt. apply IH.
      * by apply lookup_app_l_Some.
      * rewrite take_app_le by lia. exact Hbefore.
      * apply Forall_app. split; [exact Hall | by constructor].
Qed.

Lemma np_argmax_first_max (l : list R) :
  l ≠ [] → ∃ j, np_argmax l = Done (Z.of_nat j) ∧ first_max l j.
Proof.
  destruct l as [| x rest]; [done |]. intros _.
  destruct (argmax_from_first_max rest [x] x 0%nat) as (j & Hj & Hfirst);
    [reflexivity | constructor | constructor; [lra | constructor] |].
  exists j. split; [| exact Hfirst]. unfold np_argmax. f_equal. exact Hj.
Qed.

Section PlayerFacts.

Local Open Scope R_scope.

Variable get_valid_actions : board → option Z → list (Z * Z).
Variable detect_win : board → Z → bool.
Variable index_to_pos : Z → Z * Z.
Variable model_predict : list (list board) → list (list R) * list R.

Local Abbreviation predict :=
  (AGC.predict get_valid_actions detect_win index_to_pos model_predict).
Local Abbreviation choose_action :=
  (AGC.choose_action get_valid_actions detect_win index_to_pos model_predict).

Lemma prob_mask_lookup (valid_actions : list (Z * Z)) (j : nat) :
  (j < 225)%nat →
  map (λ i, if bool_decide (index_to_pos i ∈ valid_actions) then 1%Z else 0%Z)
      (range BOARD_SIZE) !! j
  = Some (if bool_decide (index_to_pos (Z.of_nat j) ∈ valid_actions)
          then 1%Z else 0%Z).
Proof.
  intros Hj. change (map ?f ?l) with (f <$> l). unfold range.
  rewrite list_lookup_fmap, lookup_seqZ_lt by (unfold BOARD_SIZE; lia).
  reflexivity.
Qed.

(** X16: over exact arithmetic, when the brain answers with 225 priors
    that are not negative and one of them is positive at an index whose
    position the oracle (distance 2) returned, [AGCPlayer.choose_action]
    answers with a position the oracle returned: the first index of the
    greatest masked prior. *)
Theorem agc_choose_action_valid player_num state probs v i p :
  predict (if (player_num =? 2)%Z then convert_to_p1_perspective state else state)
    = Done (probs, v) →
  length probs = 225%nat →
  Forall (λ x, 0 <= x) probs →
  probs !! i = Some p → 0 < p →
  index_to_pos (Z.of_nat i) ∈ get_valid_actions state (Some 2%Z) →
  ∃ j, choose_action player_num state = Done (index_to_pos (Z.of_nat j))
    ∧ (j < 225)%nat
    ∧ index_to_pos (Z.of_nat j) ∈ get_valid_actions state (Some 2%Z)
    ∧ first_max
        (zip_with (λ x m, x * IZR m) probs
           (map (λ k, if bool_decide (index_to_pos k ∈ get_valid_actions state (Some 2%Z))
                      then 1%Z else 0%Z) (range BOARD_SIZE))) j.
Proof.
  intros Hbrain Hlen Hnonneg Hi Hp Hvalid.
  set (valid_actions := get_valid_actions state (Some 2%Z)) in *.
  set (prob_mask := map (λ k, if bool_decide (index_to_pos k ∈ valid_actions)
                              then 1%Z else 0%Z) (range BOARD_SIZE)).
  assert (length prob_mask = 225%nat) as Hmlen
    by (unfold prob_mask, range; by rewrite length_map, length_seqZ).
  pose proof (lookup_lt_Some _ _ _ Hi) as Hi225. rewrite Hlen in Hi225.
  set (masked := zip_with (λ x m, x * IZR m) probs prob_mask).
  assert (masked !! i = Some p) as Hmi.
  { unfold masked. rewrite lookup_zip_with, Hi. cbn.
    unfold prob_mask. rewrite prob_mask_lookup by exact Hi225. cbn.
    rewrite bool_decide_eq_true_2 by exact Hvalid. f_equal. lra. }
  destruct (np_argmax_first_max masked) as (j & Hj & Hfirst).
  { intros Hnil. by rewrite Hnil in Hmi. }
  exists j.
  destruct Hfirst as (m & Hmj & Hbefore & Hall).
  pose proof (lookup_lt_Some _ _ _ Hmj) as Hj225.
  unfold masked in Hj225. rewrite length_zip_with, Hlen, Hmlen in Hj225.
  assert (0 < m) as Hm.
  { pose proof (proj1 (Forall_forall _ _) Hall p (list_elem_of_lookup_2 _ _ _ Hmi)).
    cbn in *. lra. }
  split; [| split; [lia | split]].
  - unfold AGC.choose_action. rewrite Hbrain. cbn [obind].
    fold valid_actions. fold prob_mask.
    rewrite decide_True by (by rewrite Hlen, Hmlen).
    cbn [fmul of_Z real_arith]. fold masked. rewrite Hj. reflexivity.
  - unfold masked in Hmj. rewrite lookup_zip_with in Hmj.
    destruct (probs !! j) as [x |] eqn:Hx; [| discriminate]. cbn in Hmj.
    unfold prob_mask in Hmj. rewrite prob_mask_lookup in Hmj by lia.
    cbn in Hmj. injection Hmj as Hmj.
    destruct (bool_decide_reflect (index_to_pos (Z.of_nat j) ∈ valid_actions))
      as [Hin | _]; [exact Hin | lra].
  - by exists m.
Qed.

(** X17: over exact arithmetic, when the oracle (distance 2) returns no
    position of the board, or every prior at a returned position is 0,
    every masked prior is 0 and [AGCPlayer.choose_action] answers with the
    position of index 0, whether that cell is free or not. *)
Theorem agc_choose_action_all_masked player_num state probs v :
  predict (if (player_num =? 2)%Z then convert_to_p1_perspective state else state)
    = Done (probs, v) →
  length probs = 225%nat →
  (∀ i x, probs !! i = Some x →
     index_to_pos (Z.of_nat i) ∈ get_valid_actions state (Some 2%Z) → x = 0) →
  choose_action player_num state = Done (index_to_pos 0%Z).
Proof.
  intros Hbrain Hlen Hzero.
  set (valid_actions := get_valid_actions state (Some 2%Z)) in *.
  set (prob_mask := map (λ k, if bool_decide (index_to_pos k ∈ valid_actions)
                              then 1%Z else 0%Z) (range BOARD_SIZE)).
  assert (length prob_mask = 225%nat) as Hmlen
    by (unfold prob_mask, range; by rewrite length_map, length_seqZ).
  set (masked := zip_with (λ x m, x * IZR m) probs prob_mask).
  assert (Forall (λ x, x = 0) masked) as Hall.
  { apply Forall_lookup. intros i x Hx. unfold masked in Hx.
    rewrite lookup_zip_with in Hx.
    destruct (probs !! i) as [y |] eqn:Hy; [| discriminate]. cbn in Hx.
    pose proof (lookup_lt_Some _ _ _ Hy) as Hi. rewrite Hlen in Hi.
    unfold prob_mask in Hx. rewrite prob_mask_lookup in Hx by exact Hi.
    cbn in Hx. injection Hx as <-.
    destruct (bool_decide_reflect (index_to_pos (Z.of_nat i) ∈ valid_actions))
      as [Hin | _]; [rewrite (Hzero i y Hy Hin) |]; lra. }
  unfold AGC.choose_action. rewrite Hbrain. cbn [obind].
  fold valid_actions. fold prob_mask.
  rewrite decide_True by (by rewrite Hlen, Hmlen).
  cbn [fmul of_Z real_arith]. fold masked.
  destruct masked as [| x rest] eqn:Hmasked.
  { apply (f_equal length) in Hmasked. unfold masked in Hmasked.
    rewrite length_zip_with, Hlen, Hmlen in Hmasked. discriminate. }
  apply Forall_cons in Hall as [-> Hrest].
  unfold np_argmax. cbn [obind]. do 2 f_equal.
  clear -Hrest. generalize 1%Z.
  induction Hrest as [| y rest -> _ IH]; intros k; [reflexivity |].
  cbn [argmax_from fgtb real_arith].
  rewrite (proj2 (Rgtb_false 0 0)) by lra. apply IH.
Qed.

End PlayerFacts.

(** ** The visit count of a state and the visits of its edges *)

Lemma edge_visits_empty (key : board) : edge_visits ∅ key = 0.
Proof. unfold edge_visits. apply map_fold_empty. Qed.

Lemma edge_visits_insert_new (edges : gmap (board * Z) Z) k n key :
  edges !! k = None →
  edge_visits (<[k := n]> edges) key
  = (if decide (fst k = key) then n else 0) + edge_visits edges key.
Proof.
  intros Hk. unfold edge_visits. rewrite map_fold_insert_L; [| | exact Hk].
  - destruct (decide (fst k = key)); lia.
  - intros j1 j2 z1 z2 y _ _ _.
    destruct (decide (fst j1 = key)), (decide (fst j2 = key)); lia.
Qed.

Lemma edge_visits_insert (edges : gmap (board * Z) Z) k n key :
  edge_visits (<[k := n]> edges) key
  = (if decide (fst k = key) then n - default 0 (edges !! k) else 0)
    + edge_visits edges key.
Proof.
  destruct (edges !! k) as [n0 |] eqn:Hk.
  - assert (delete k edges !! k = None) as Hdel by apply lookup_delete_eq.
    pose proof (edge_visits_insert_new (delete k edges) k n key Hdel) as H1.
    pose proof (edge_visits_insert_new (delete k edges) k n0 key Hdel) as H2.
    rewrite insert_delete_eq in H1.
    rewrite (insert_delete_id edges k n0 Hk) in H2.
    rewrite H1, H2. cbn. destruct (decide (fst k = key)); lia.
  - rewrite edge_visits_insert_new by exact Hk.
    cbn. destruct (decide (fst k = key)); lia.
Qed.

Lemma edge_visits_none (key : board) : ∀ edges : gmap (board * Z) Z,
  (∀ a, edges !! (key, a) = None) → edge_visits edges key = 0.
Proof.
  apply (map_ind (λ edges, (∀ a, edges !! (key, a) = None) → edge_visits edges key = 0)).
  - intros _. apply edge_visits_empty.
  - intros k n edges Hk IH Hnone.
    rewrite edge_visits_insert_new by exact Hk.
    destruct (decide (fst k = key)) as [<- | Hne].
    + specialize (Hnone (snd k)). rewrite <- surjective_pairing in Hnone.
      by rewrite lookup_insert_eq in Hnone.
    + rewrite IH; [lia |]. intros a. specialize (Hnone a).
      rewrite lookup_insert_ne in Hnone; [exact Hnone |].
      intros ->. by apply Hne.
Qed.

Section Visits.

Context {F : Type} `{Arith F}.
Variable predict : board → list F * F.
Variable get_reward : board → Z → Z.
Variable get_valid_actions_1d : board → Z → list Z.
Variable index_to_pos : Z → Z * Z.

Local Abbreviation search := (search predict get_reward get_valid_actions_1d index_to_pos).
Local Abbreviation search_seq :=
  (search_seq predict get_reward get_valid_actions_1d index_to_pos).
Local Abbreviation cache_reward := (cache_reward get_reward).

Lemma visit_inv_init : visit_inv (MCTS_init : store F).
Proof.
  split; [| split]; cbn.
  - intros k. rewrite !lookup_empty. split; intros [? [=]].
  - intros b a. rewrite lookup_empty. intros [? [=]].
  - intros b. rewrite lookup_empty. intros [? [=]].
Qed.

Lemma search_visit_inv fuel : ∀ state (st : store F) v st',
  visit_inv st → search fuel state st = Done (v, st') →
  visit_inv st' ∧ ∀ k, is_Some (s_p st !! k) → is_Some (s_p st' !! k).
Proof.
  induction fuel as [| fuel IH]; intros state st v st' Hinv Hrun; [discriminate |].
  rewrite search_unfold in Hrun. cbn zeta in Hrun.
  destruct (cache_reward_frame get_reward st state) as (Hq0 & Hn0 & Hsn0 & Hsp0 & _).
  assert (visit_inv (cache_reward state st)) as Hinv0.
  { unfold visit_inv. by rewrite Hq0, Hn0, Hsn0, Hsp0. }
  rewrite <- Hsp0. clear Hinv Hq0 Hn0 Hsn0 Hsp0.
  destruct (is_terminal _ _).
  { injection Hrun as <- <-. by split. }
  destruct Hinv0 as (Hdom0 & Hexp0 & Hsum0).
  destruct (s_p (cache_reward state st) !! state) as [prior0 |] eqn:Hprior.
  - destruct (select _ state) as [a |]; [| discriminate]. cbn [obind] in Hrun.
    destruct (next_state _ state a) as [next_s |]; [| discriminate].
    cbn [obind] in Hrun.
    destruct (search fuel next_s _) as [[value st1] |] eqn:Hrec; [| discriminate].
    cbn [obind] in Hrun.
    destruct (IH _ _ _ _ (conj Hdom0 (conj Hexp0 Hsum0)) Hrec)
      as ((Hdom1 & Hexp1 & Hsum1) & Hkeep1).
    assert (is_Some (s_p st1 !! state)) as Hstate1
      by (apply Hkeep1; rewrite Hprior; by eexists).
    apply backup_Done in Hrun
      as (_ & Hsp2 & _ & _ & _ & (m & Hm & Hsn2) & Hedges).
    rewrite (Hsum1 state Hstate1) in Hm. injection Hm as Hm.
    assert (∃ q' n', sa_q st' = <[(state, a) := q']> (sa_q st1)
                     ∧ sa_n st' = <[(state, a) := n']> (sa_n st1)
                     ∧ n' - default 0 (sa_n st1 !! (state, a)) = 1)
      as (q' & n' & Hq2 & Hn2 & Hone).
    { destruct Hedges as [(q & na & _ & Hna & Hq2 & Hn2) | (Hnone & Hq2 & Hn2)].
      - eexists _, _. split; [exact Hq2 |]. split; [exact Hn2 |].
        rewrite Hna. cbn. lia.
      - eexists _, _. split; [exact Hq2 |]. split; [exact Hn2 |].
        destruct (sa_n st1 !! (state, a)) as [na |] eqn:Hna; [| reflexivity].
        destruct (proj2 (Hdom1 (state, a))) as [q Hq]; [by eexists | congruence]. }
    split; [split; [| split] |].
    + intros k. rewrite Hq2, Hn2, !lookup_insert_is_Some'. by rewrite Hdom1.
    + intros b a'. rewrite Hn2, Hsp2, lookup_insert_is_Some'.
      intros [[= <- _] | Hk]; [exact Hstate1 | by eapply Hexp1].
    + intros b. rewrite Hsp2, Hsn2, Hn2. intros Hb.
      rewrite edge_visits_insert. cbn [fst].
      destruct (decide (state = b)) as [<- | Hne].
      * rewrite lookup_insert_eq. f_equal. lia.
      * rewrite lookup_insert_ne by exact Hne. exact (Hsum1 b Hb).
    + intros k Hk. rewrite Hsp2. by apply Hkeep1.
  - apply expand_Done in Hrun
      as (_ & Hq' & Hn' & _ & Hsn' & _ & prior & Hsp' & _).
    split; [split; [| split] |].
    + intros k. rewrite Hq', Hn'. apply Hdom0.
    + intros b a. rewrite Hn', Hsp'. intros Hk%Hexp0.
      apply lookup_insert_is_Some'. by right.
    + intros b. rewrite Hsp', Hsn', Hn'.
      destruct (decide (state = b)) as [<- | Hne].
      * intros _. rewrite lookup_insert_eq. f_equal. symmetry.
        apply edge_visits_none. intros a.
        destruct (sa_n (cache_reward state st) !! (state, a)) eqn:Hedge; [| reflexivity].
        destruct (Hexp0 state a) as [prior' Hprior']; [by eexists | congruence].
      * rewrite !lookup_insert_ne by exact Hne. apply Hsum0.
    + intros k Hk. rewrite Hsp'. apply lookup_insert_is_Some'. by right.
Qed.

(** X18: after any sequence of [search] calls on a new search object
    that returned, the visit count of every expanded state is the sum of
    the visit counts of its edges, over all actions, and every state
    with an edge is expanded. *)
Theorem visits_consistent fuel states (st : store F) :
  search_seq fuel states MCTS_init = Done st →
  (∀ b, is_Some (s_p st !! b) → s_n st !! b = Some (edge_visits (sa_n st) b))
  ∧ (∀ b a, is_Some (sa_n st !! (b, a)) → is_Some (s_p st !! b)).
Proof.
  assert (∀ st0 : store F, visit_inv st0 →
            search_seq fuel states st0 = Done st → visit_inv st) as Hseq.
  { induction states as [| state states IH]; intros st0 Hinv Hrun.
    - by injection Hrun as <-.
    - cbn [search_seq] in Hrun.
      destruct (search fuel state st0) as [[v st1] |] eqn:Hs; [| discriminate].
      cbn [obind] in Hrun. apply (IH st1); [| exact Hrun].
      by eapply search_visit_inv. }
  intros Hrun. destruct (Hseq MCTS_init visit_inv_init Hrun) as (_ & Hexp & Hsum).
  by split.
Qed.

End Visits.

(** ** The recursion budget *)

Section Returns.

Variable predict : board → list R * R.
Variable get_reward : board → Z → Z.
Variable get_valid_actions_1d : board → Z → list Z.
Variable index_to_pos : Z → Z * Z.
Hypothesis evaluator_contract : evaluator_ok predict.
Hypothesis reward_bounded : ∀ b, (-1 ≤ get_reward b 1 ≤ 1)%Z.
Hypothesis oracle_contract : oracle_ok get_valid_actions_1d index_to_pos.

Local Abbreviation search_seq :=
  (search_seq predict get_reward get_valid_actions_1d index_to_pos).

(** X19: over exact arithmetic, with an evaluator that answers with at
    least 225 probabilities and a value in [-1, 1], rewards in {-1, 0, 1}
    and an oracle that returns empty cells in range, at least one on every
    board with a stone and an empty cell, any sequence of [search] calls
    on a new search object returns, without an exception, when every
    board is 15 by 15, holds a stone, and has fewer empty cells than the
    recursion budget; every stored prior stays in [0, 1] and every mean
    value in [-1, 1]. *)
Theorem search_seq_returns fuel states :
  Forall (λ b, shape_ok b ∧ (0 < count_nonzero b)%Z
               ∧ (BOARD_SIZE - count_nonzero b < Z.of_nat fuel)%Z) states →
  ∃ st, search_seq fuel states MCTS_init = Done st
    ∧ priors_bounded st ∧ edges_bounded st.
Proof.
  intros Hall.
  assert (∀ st0 : store R, tree_inv get_reward get_valid_actions_1d st0 →
            Forall (λ b, shape_ok b ∧ (0 < count_nonzero b)%Z
                         ∧ (BOARD_SIZE - count_nonzero b < Z.of_nat fuel)%Z) states →
            ∃ st, search_seq fuel states st0 = Done st) as Hseq.
  { clear Hall. induction states as [| state states IH]; intros st0 Hinv Hall.
    - by eexists.
    - apply Forall_cons in Hall as [(Hshape & Hstone & Hfuel) Hall].
      destruct (search_total predict get_reward get_valid_actions_1d index_to_pos
                  (λ b, proj1 (evaluator_contract b)) oracle_contract fuel state st0
                  Hshape Hstone Hfuel Hinv) as (v & st1 & Hrun & Hinv1 & _).
      cbn [search_seq]. rewrite Hrun. cbn [obind]. by apply IH. }
  destruct (Hseq MCTS_init) as [st Hrun]; [apply tree_inv_init | exact Hall |].
  exists st. split; [exact Hrun |].
  by apply (reached_in_range predict get_reward get_valid_actions_1d index_to_pos
              evaluator_contract reward_bounded fuel states).
Qed.

End Returns.

(** ** The further theorems on concrete runs *)

Lemma Forall_no_winb detect_win (b : board) (actions : list (Z * Z)) :
  forallb (no_winb detect_win b) actions = true →
  Forall (no_win detect_win b) actions.
Proof.
  intros Hall. apply Forall_forall. intros action Hin.
  rewrite forallb_forall in Hall.
  specialize (Hall action (proj1 (list_elem_of_In _ _) Hin)).
  unfold no_winb in Hall. unfold no_win.
  destruct (setitem2 b (fst action) (snd action) 1) as [state_copy |];
    [| discriminate].
  exists state_copy. split; [reflexivity |].
  by apply negb_true_iff.
Qed.

Lemma demo_second_run :
  demo_search 2 two_stones expanded_root = Done (fst demo_second, snd demo_second).
Proof.
  apply (done_pair_eq (of_Z (F:=float) 0, MCTS_init)
           (demo_search 2 two_stones expanded_root)).
  vm_compute. reflexivity.
Qed.

Lemma expanded_root_no_edges : sa_n expanded_root = ∅.
Proof. vm_compute. reflexivity. Qed.

Lemma search_write_once_witness :
  (∀ k r, s_r expanded_root !! k = Some r → s_r (snd demo_second) !! k = Some r)
  ∧ (∀ k prior, s_p expanded_root !! k = Some prior →
       s_p (snd demo_second) !! k = Some prior
       ∧ s_valid_moves (snd demo_second) !! k = s_valid_moves expanded_root !! k).
Proof.
  exact (search_write_once (F:=float) random_predict Standin.get_reward
           Standin.get_valid_actions_1d Standin.index_to_pos
           2 two_stones expanded_root (fst demo_second) (snd demo_second)
           demo_second_run).
Defined.

Lemma expanded_root_no_means : sa_q expanded_root = ∅.
Proof. vm_compute. reflexivity. Qed.

Lemma demo_third_run :
  demo_search 3 two_stones (snd demo_second) = Done (fst demo_third, snd demo_third).
Proof.
  apply (done_pair_eq (of_Z (F:=float) 0, MCTS_init)
           (demo_search 3 two_stones (snd demo_second))).
  vm_compute. reflexivity.
Qed.

Lemma search_visits_grow_witness :
  sa_n (snd demo_second) !! (two_stones, 96) = Some 1
  ∧ (∀ k, is_Some (sa_q (snd demo_second) !! k) → is_Some (sa_q (snd demo_third) !! k))
  ∧ (∀ k n, sa_n (snd demo_second) !! k = Some n →
       ∃ n', sa_n (snd demo_third) !! k = Some n' ∧ n ≤ n')
  ∧ (∀ k n, is_Some (s_p (snd demo_second) !! k) →
       s_n (snd demo_second) !! k = Some n →
       ∃ n', s_n (snd demo_third) !! k = Some n' ∧ n ≤ n')
  ∧ (∀ k, is_Some (sa_q (snd demo_third) !! k) ↔ is_Some (sa_n (snd demo_third) !! k)).
Proof.
  split; [vm_compute; reflexivity |].
  apply (search_visits_grow (F:=float) random_predict Standin.get_reward
           Standin.get_valid_actions_1d Standin.index_to_pos
           3 two_stones (snd demo_second) (fst demo_third) (snd demo_third)).
  - apply (search_visits_grow (F:=float) random_predict Standin.get_reward
             Standin.get_valid_actions_1d Standin.index_to_pos
             2 two_stones expanded_root (fst demo_second) (snd demo_second)).
    + intros k. by rewrite expanded_root_no_means, expanded_root_no_edges, !lookup_empty.
    + exact demo_second_run.
  - exact demo_third_run.
Defined.

Lemma search_one_evaluation_witness :
  events (snd demo_second) = events expanded_root
  ∨ ∃ leaf,
      s_p expanded_root !! leaf = None ∧ is_Some (s_p (snd demo_second) !! leaf)
      ∧ (events (snd demo_second) = events expanded_root ++ [EvPredict leaf]
         ∨ events (snd demo_second)
           = events expanded_root ++ [EvPredict leaf; EvPrint "warning: all moves masked"]).
Proof.
  exact (search_one_evaluation (F:=float) random_predict Standin.get_reward
           Standin.get_valid_actions_1d Standin.index_to_pos
           2 two_stones expanded_root (fst demo_second) (snd demo_second)
           demo_second_run).
Defined.

Lemma get_probs_terminal_root_witness :
  demo_get_probs 1 5 lost_board MCTS_init = Raised ZeroDivisionError.
Proof.
  apply (get_probs_terminal_root (F:=float) random_predict Standin.get_reward
           Standin.get_valid_actions_1d Standin.index_to_pos 0 5 lost_board).
  vm_compute. reflexivity.
Defined.

Lemma get_probs_single_playout_witness :
  demo_get_probs 300 0 two_stones MCTS_init = Raised ZeroDivisionError
  ∧ demo_get_probs 301 1 two_stones MCTS_init = Raised ZeroDivisionError.
Proof.
  apply (get_probs_single_playout (F:=float) random_predict Standin.get_reward
           Standin.get_valid_actions_1d Standin.index_to_pos 300 two_stones).
  - vm_compute. reflexivity.
  - cbn. lia.
Defined.

Lemma standin_get_probs_run :
  ∃ probs st,
    get_probs (F:=R) random_predict Standin.get_reward
      Standin.empty_cells Standin.index_to_pos 300 3 two_stones MCTS_init
    = Done (probs, st).
Proof.
  destruct (get_probs_run random_predict Standin.get_reward
              Standin.empty_cells Standin.index_to_pos
              random_predict_size empty_cells_ok two_stones 300%nat
              two_stones_shape_ok) with (n := 1%nat) as (st & _ & _ & Hrun).
  - vm_compute. reflexivity.
  - vm_compute. reflexivity.
  - lia.
  - eexists _, st. exact Hrun.
Qed.

Lemma get_probs_distribution_witness :
  ∃ probs st',
    get_probs (F:=R) random_predict Standin.get_reward
      Standin.empty_cells Standin.index_to_pos 300 3 two_stones MCTS_init
    = Done (probs, st')
    ∧ length probs = 225%nat
    ∧ np_sum probs = 1%R
    ∧ ∀ a, 0 ≤ a < 225 →
        getitem probs a
        = Some (IZR (default 0%Z (sa_n st' !! (two_stones, a)))
                / IZR (py_sum (counts st' two_stones)))%R.
Proof.
  destruct standin_get_probs_run as (probs & st' & Hrun).
  exists probs, st'. split; [exact Hrun |].
  exact (get_probs_distribution random_predict Standin.get_reward
           Standin.empty_cells Standin.index_to_pos
           300 3 two_stones MCTS_init probs st' Hrun).
Defined.

Lemma get_probs_returns_witness :
  ∃ probs st,
    get_probs (F:=R) random_predict Standin.get_reward
      Standin.empty_cells Standin.index_to_pos 300 (S (S 1)) two_stones MCTS_init
    = Done (probs, st)
    ∧ np_sum probs = 1%R
    ∧ Forall (λ p, (0 <= p)%R) probs
    ∧ priors_bounded st ∧ edges_bounded st.
Proof.
  apply (get_probs_returns random_predict Standin.get_reward
           Standin.empty_cells Standin.index_to_pos
           random_predict_ok standin_reward_bounded empty_cells_ok
           two_stones 300%nat 1%nat two_stones_shape_ok).
  - vm_compute. reflexivity.
  - vm_compute. reflexivity.
  - lia.
Defined.

Lemma choose_action_most_visited_witness :
  ∃ st' i,
    choose_action (F:=R) random_predict Standin.get_reward
      Standin.empty_cells Standin.index_to_pos 300 1 3 two_stones MCTS_init
    = Done (Standin.index_to_pos (Z.of_nat i), st')
    ∧ first_most_visited (counts st' (player_perspective 1 two_stones)) i.
Proof.
  destruct standin_get_probs_run as (probs & st' & Hrun).
  destruct (choose_action_most_visited random_predict Standin.get_reward
              Standin.empty_cells Standin.index_to_pos
              300 1 3 two_stones probs st') as (i & Hi).
  - vm_compute. discriminate.
  - exact Hrun.
  - exists st', i. exact Hi.
Defined.

Lemma training_same_move_witness :
  choose_action (F:=float) random_predict Standin.get_reward
    Standin.get_valid_actions_1d Standin.index_to_pos 300 1 3 two_stones MCTS_init
  = obind (choose_action_training (F:=float) random_predict Standin.get_reward
             Standin.get_valid_actions_1d Standin.index_to_pos
             300 3 two_stones MCTS_init)
      (λ '(best_action, _, st'), Done (best_action, st')).
Proof.
  apply (training_same_move (F:=float) random_predict Standin.get_reward
           Standin.get_valid_actions_1d Standin.index_to_pos
           300 1 3 two_stones MCTS_init).
  lia.
Defined.

Lemma training_empty_board_witness :
  choose_action_training (F:=float) random_predict Standin.get_reward
    Standin.get_valid_actions_1d Standin.index_to_pos 0 300 empty_board MCTS_init
  = Done ((7, 7),
          replicate 112 (of_Z 0) ++ of_Z 1 :: replicate 112 (of_Z 0),
          MCTS_init).
Proof.
  apply (training_empty_board (F:=float) random_predict Standin.get_reward
           Standin.get_valid_actions_1d Standin.index_to_pos
           0 300 empty_board MCTS_init).
  exact empty_board_all_empty.
Defined.

Lemma pure_search_prior_witness :
  ∃ st',
    search (F:=R) random_predict Standin.get_reward
      Standin.get_valid_actions_1d Standin.index_to_pos 1 two_stones MCTS_init
    = Done ((- 0)%R, st')
    ∧ s_p st' !! two_stones
      = Some ((λ i, if bool_decide (i ∈ Standin.get_valid_actions_1d two_stones 1)
                    then (1 / INR (legal_count (Standin.get_valid_actions_1d two_stones 1)))%R
                    else 0%R)
                <$> range BOARD_SIZE)
    ∧ events st' = events (MCTS_init (F:=R)) ++ [EvPredict two_stones].
Proof.
  apply (pure_search_prior Standin.get_reward
           Standin.get_valid_actions_1d Standin.index_to_pos
           0 two_stones MCTS_init).
  - vm_compute. reflexivity.
  - apply lookup_empty.
  - vm_compute. discriminate.
Defined.

Lemma nn_readable_injective_witness :
  two_stones = convert_perspective (convert_perspective two_stones).
Proof.
  apply (nn_readable_injective two_stones
           (convert_perspective (convert_perspective two_stones))).
  - exact two_stones_cells_ok.
  - unfold cells_ok. vm_compute (convert_perspective _).
    repeat (constructor; [repeat (constructor; [unfold cell_ok; lia |]); constructor |]).
    constructor.
  - vm_compute. reflexivity.
Defined.

Lemma nn_readable_convert_witness :
  ∃ own enemy first second,
    AGC.convert_to_nn_readable two_stones = [[own; enemy; first; second]]
    ∧ AGC.convert_to_nn_readable (convert_perspective two_stones)
      = [[enemy; own; first; second]].
Proof.
  apply (nn_readable_convert two_stones). exact two_stones_cells_ok.
Defined.

Lemma four_in_row_oracle :
  oracle_positions four_in_row None
  = [(0, 0); (0, 1); (0, 2); (0, 3); (0, 4); (0, 5)]
    ++ (1, 0)
       :: [(1, 5); (2, 0); (2, 1); (2, 2); (2, 3); (2, 4); (2, 5); (3, 0);
           (3, 4); (4, 0); (4, 1); (4, 2); (4, 3); (4, 4)].
Proof. vm_compute. reflexivity. Qed.

Lemma agc_predict_winning_move_witness :
  AGC.predict (F:=float) oracle_positions Standin.has_five Standin.index_to_pos
    constant_model four_in_row
  = Done (map (λ i, if decide (Standin.index_to_pos i = (1, 0))
                    then of_Z 1 else of_Z 0)
            (range BOARD_SIZE),
          fdiv (of_Z 99) (of_Z 100)).
Proof.
  apply (agc_predict_winning_move (F:=float) oracle_positions Standin.has_five
           Standin.index_to_pos constant_model four_in_row
           [(0, 0); (0, 1); (0, 2); (0, 3); (0, 4); (0, 5)] (1, 0)
           [(1, 5); (2, 0); (2, 1); (2, 2); (2, 3); (2, 4); (2, 5); (3, 0);
            (3, 4); (4, 0); (4, 1); (4, 2); (4, 3); (4, 4)]
           (<[1%nat := [1; 1; 1; 1; 1; 0; 0; 0; 0; 0; 0; 0; 0; 0; 0]]> four_in_row)).
  - exact four_in_row_oracle.
  - apply Forall_no_winb. vm_compute. reflexivity.
  - vm_compute. reflexivity.
  - vm_compute. reflexivity.
Defined.

Lemma two_stones_no_win :
  Forall (no_win Standin.has_five two_stones) (oracle_positions two_stones None).
Proof. apply Forall_no_winb. vm_compute. reflexivity. Qed.

Lemma agc_predict_network_witness :
  AGC.predict (F:=float) oracle_positions Standin.has_five Standin.index_to_pos
    constant_model two_stones
  = Done (replicate 225 (fdiv (of_Z 1) (of_Z 225)), of_Z 0).
Proof.
  apply (agc_predict_network (F:=float) oracle_positions Standin.has_five
           Standin.index_to_pos constant_model two_stones
           [replicate 225 (fdiv (of_Z 1) (of_Z 225))] [of_Z 0]).
  - exact two_stones_no_win.
  - reflexivity.
Defined.

Lemma constant_model_predict {F : Type} `{Arith F} (b : board) :
  Forall (no_win Standin.has_five b) (oracle_positions b None) →
  AGC.predict (F:=F) oracle_positions Standin.has_five Standin.index_to_pos
    constant_model b
  = Done (replicate 225 (fdiv (of_Z 1) (of_Z 225)), of_Z 0).
Proof.
  intros Hno. unfold AGC.predict.
  rewrite (winning_action_none _ _ _ Hno). reflexivity.
Qed.

Lemma agc_choose_action_valid_witness :
  ∃ j, AGC.choose_action (F:=R) oracle_positions Standin.has_five
         Standin.index_to_pos constant_model 1 two_stones
       = Done (Standin.index_to_pos (Z.of_nat j))
    ∧ (j < 225)%nat
    ∧ Standin.index_to_pos (Z.of_nat j) ∈ oracle_positions two_stones (Some 2).
Proof.
  destruct (agc_choose_action_valid oracle_positions Standin.has_five
              Standin.index_to_pos constant_model 1 two_stones
              (replicate 225 (1 / 225)%R) 0%R 96%nat (1 / 225)%R)
    as (j & Hrun & Hlt & Hin & _).
  - exact (constant_model_predict (F:=R) two_stones two_stones_no_win).
  - apply length_replicate.
  - apply Forall_replicate. lra.
  - apply lookup_replicate_2. lia.
  - lra.
  - apply (bool_decide_unpack _). vm_compute. reflexivity.
  - exists j. split; [exact Hrun |]. split; [exact Hlt | exact Hin].
Defined.

Lemma empty_board_no_win :
  Forall (no_win Standin.has_five empty_board) (oracle_positions empty_board None).
Proof. apply Forall_no_winb. vm_compute. reflexivity. Qed.

Lemma empty_board_no_position : oracle_positions empty_board (Some 2) = [].
Proof. vm_compute. reflexivity. Qed.

Lemma agc_choose_action_all_masked_witness :
  AGC.choose_action (F:=R) oracle_positions Standin.has_five
    Standin.index_to_pos constant_model 1 empty_board
  = Done (Standin.index_to_pos 0).
Proof.
  apply (agc_choose_action_all_masked oracle_positions Standin.has_five
           Standin.index_to_pos constant_model 1 empty_board
           (replicate 225 (1 / 225)%R) 0%R).
  - exact (constant_model_predict (F:=R) empty_board empty_board_no_win).
  - apply length_replicate.
  - intros i x _ Hin. rewrite empty_board_no_position in Hin.
    by apply elem_of_nil in Hin.
Defined.

Lemma visits_consistent_witness :
  ∃ st, search_seq (F:=R) random_predict Standin.get_reward
          Standin.empty_cells Standin.index_to_pos
          300 (replicate 3 two_stones) MCTS_init = Done st
    ∧ (∀ b, is_Some (s_p st !! b) → s_n st !! b = Some (edge_visits (sa_n st) b))
    ∧ (∀ b a, is_Some (sa_n st !! (b, a)) → is_Some (s_p st !! b)).
Proof.
  destruct (playouts_return random_predict Standin.get_reward
              Standin.empty_cells Standin.index_to_pos
              random_predict_size empty_cells_ok two_stones 300%nat
              two_stones_shape_ok) with (n := 3%nat) as [st Hst].
  - vm_compute. reflexivity.
  - vm_compute. reflexivity.
  - lia.
  - rewrite playouts_search_seq in Hst.
    exists st. split; [exact Hst |].
    exact (visits_consistent (F:=R) random_predict Standin.get_reward
             Standin.empty_cells Standin.index_to_pos
             300 (replicate 3 two_stones) st Hst).
Defined.

Lemma search_seq_returns_witness :
  ∃ st, search_seq (F:=R) random_predict Standin.get_reward
          Standin.empty_cells Standin.index_to_pos
          224 [two_stones; two_stones] MCTS_init = Done st
    ∧ priors_bounded st ∧ edges_bounded st.
Proof.
  apply (search_seq_returns random_predict Standin.get_reward
           Standin.empty_cells Standin.index_to_pos
           random_predict_ok standin_reward_bounded empty_cells_ok
           224 [two_stones; two_stones]).
  assert (shape_ok two_stones ∧ 0 < count_nonzero two_stones
          ∧ BOARD_SIZE - count_nonzero two_stones < Z.of_nat 224) as Hroot.
  { split; [exact two_stones_shape_ok |]. split; vm_compute; reflexivity. }
  repeat constructor; apply Hroot.
Defined.

(** ** Selection on the run on binary64 floats *)

Lemma demo_first_run :
  demo_search 1 two_stones MCTS_init
  = Done (fst (done_val (of_Z (F:=float) 0, MCTS_init) (demo_search 1 two_stones MCTS_init)),
          expanded_root).
Proof.
  apply (done_pair_eq (of_Z (F:=float) 0, MCTS_init)
           (demo_search 1 two_stones MCTS_init)).
  vm_compute. reflexivity.
Qed.

Lemma demo_second_edges :
  ∀ a, is_Some (sa_q (snd demo_second) !! (two_stones, a))
       → is_Some (sa_n (snd demo_second) !! (two_stones, a)).
Proof.
  destruct (search_visit_inv (F:=float) random_predict Standin.get_reward
              Standin.get_valid_actions_1d Standin.index_to_pos
              1 two_stones MCTS_init _ _ visit_inv_init demo_first_run)
    as [Hinv1 _].
  destruct (search_visit_inv (F:=float) random_predict Standin.get_reward
              Standin.get_valid_actions_1d Standin.index_to_pos
              2 two_stones expanded_root _ _ Hinv1 demo_second_run)
    as [(Hdom & _) _].
  intros a. apply Hdom.
Qed.

Lemma select_puct_witness :
  ∃ a, select (snd demo_second) two_stones = Done a
    ∧ (∀ a', a' ∈ [96; 97; 98; 99; 111; 114; 126; 127; 128; 129] →
         puct_score (snd demo_second) two_stones a'
         = Done (puct_formula (snd demo_second) two_stones a'))
    ∧ first_greatest (puct_formula (snd demo_second) two_stones)
        [96; 97; 98; 99; 111; 114; 126; 127; 128; 129] a.
Proof.
  destruct (select_puct (F:=float) random_predict Standin.get_reward
              Standin.get_valid_actions_1d Standin.index_to_pos
              0 (snd demo_second) two_stones
              [96; 97; 98; 99; 111; 114; 126; 127; 128; 129] demo_priors 1)
    as (a & Hsel & Hscore & Hfirst & _).
  - vm_compute. reflexivity.
  - discriminate.
  - vm_compute. reflexivity.
  - intros a Ha. apply getitem_is_Some.
    assert (length demo_priors = 225%nat) as -> by (vm_compute; reflexivity).
    assert (Forall (λ a, 0 ≤ a < Z.of_nat 225) [96; 97; 98; 99; 111; 114; 126; 127; 128; 129])
      as Hall by (repeat constructor; lia).
    exact (proj1 (Forall_forall _ _) Hall a Ha).
  - vm_compute. reflexivity.
  - vm_compute. reflexivity.
  - vm_compute. reflexivity.
  - exact demo_second_edges.
  - apply comparableb_sound. vm_compute. reflexivity.
  - exists a. split; [exact Hsel |]. split; [exact Hscore | exact Hfirst].
Defined.

(** Without comparable scores the loop selects nothing: when every prior
    is NaN, every score is NaN, no score is greater than -inf, and
    [select] answers with the initial -1. *)
Lemma select_nan_scores :
  select
    (snd (done_val (of_Z (F:=float) 0, MCTS_init)
            (search (F:=float) nan_predict Standin.get_reward
               Standin.get_valid_actions_1d Standin.index_to_pos
               1 two_stones MCTS_init)))
    two_stones
  = Done (-1).
Proof. vm_compute. reflexivity. Qed.
